(** * httpx: middleware chains, scoped routers and the error adaptor

    A shallow embedding of the Go package [httpx] (files [error.go],
    [middleware.go], [mux.go] and the handler file) and the properties of
    its middleware composition, router derivation and error-to-status
    bridging.

    Go values that are shared by reference ([*Mux], the backing arrays of
    [[]Middleware] slices, the [*chi.Mux] engine) live in an explicit
    [Store]; every operation that allocates, reads or writes them is a
    computation in the monad [M], which also carries run-time panics. *)

From Stdlib Require Import ZArith String Ascii Lia.
From stdpp Require Import base list strings.

Open Scope string_scope.
Open Scope list_scope.
Open Scope nat_scope.

(** ** net/http: requests and response writers *)

(** The part of [*http.Request] the router looks at. *)
Record Request := { r_Method : string; r_Path : string }.

(** A call made on an [http.ResponseWriter], directly or through one of the
    [net/http] helpers. *)
Inductive WriterCall :=
  | HttpError (body : string) (code : Z)     (* http.Error(w, body, code) *)
  | HttpRedirect (url : string) (code : Z)   (* http.Redirect(w, r, url, code) *)
  | WriteHeader (code : Z)                   (* w.WriteHeader(code) *)
  | Write (data : string).                   (* w.Write(data) *)

(** A response writer is the sequence of calls it has received, oldest
    first. *)
Definition ResponseWriter := list WriterCall.

Definition http_Error (w : ResponseWriter) (error : string) (code : Z)
  : ResponseWriter := w ++ [HttpError error code].

Definition http_Redirect (w : ResponseWriter) (url : string) (code : Z)
  : ResponseWriter := w ++ [HttpRedirect url code].

(** [http.HandlerFunc] *)
Definition HttpHandlerFunc := ResponseWriter -> Request -> ResponseWriter.

(** [http.NotFound] *)
Definition http_NotFound : HttpHandlerFunc :=
  fun w _ => http_Error w "404 page not found" 404.

(** ** error.go *)

(** Values of Go's [error] interface as this package sees them: either an
    error that only has a message, or a [*statusError]. *)
Inductive error :=
  | errorString (message : string)
  | statusError (message : string) (status : Z).

(** [err.Error()] *)
Definition error_Error (e : error) : string :=
  match e with
  | errorString message => message
  | statusError message _ => message
  end.

(** The type assertion [err.(StatusError)] followed by [Status()]: [None]
    when the assertion fails. *)
Definition error_Status (e : error) : option Z :=
  match e with
  | errorString _ => None
  | statusError _ status => Some status
  end.

Definition Error (status : Z) (message : string) : error :=
  statusError message status.

(** ** Handlers *)

(** [Handler.ServeHTTP(w, r) error]: the handler's effect on the writer and
    the error it returns ([None] for [nil]). *)
Definition Handler := ResponseWriter -> Request -> ResponseWriter * option error.

Definition HandlerFunc := Handler.

Definition RedirectHandler (url : string) (code : Z) : Handler :=
  fun w _ => (http_Redirect w url code, None).

Definition ErrorHandler (code : Z) (message : string) : Handler :=
  fun w _ => (w, Some (Error code message)).

(** ** mux.go: the boundary adaptor *)

Definition adaptor (next : Handler) : HttpHandlerFunc :=
  fun w r =>
    match next w r with
    | (w, Some err) =>
        let w :=
          match error_Status err with
          | Some status => http_Error w (error_Error err) status
          | None => w
          end in
        http_Error w (error_Error err) 500
    | (w, None) => w
    end.

(** ** middleware.go: middleware values *)

(** A non-nil function value of type [Middleware]. *)
Definition MiddlewareFunc := Handler -> Handler.

(** A value of type [Middleware]; [None] is the nil function, the zero
    value that [make] fills a fresh array with. *)
Definition Middleware := option MiddlewareFunc.

(** ** The store *)

(** Addresses. *)
Abbreviation loc := nat (only parsing).

(** A Go slice header: pointer to the backing array ([None] for a nil
    slice), length and capacity. *)
Record slice := Slice { s_ptr : option loc; s_len : nat; s_cap : nat }.

Definition nil_slice : slice := Slice None 0 0.

Record Mux := mkMux {
  mux_chi : loc;             (* chi *chi.Mux *)
  mux_middlewares : slice;   (* middlewares []Middleware *)
  mux_prefix : string        (* prefix string *)
}.

Record Chain := mkChain { chain_middlewares : slice }.

(** *** The delegated matching engine

    [github.com/go-chi/chi] is an external dependency.  Its multiplexer is
    modelled as a route table with the two hooks the router can install. *)
Record ChiRoute := mkRoute {
  route_method : option string;   (* None: any method *)
  route_pattern : string;
  route_handler : HttpHandlerFunc
}.

Record ChiMux := mkChi {
  chi_routes : list ChiRoute;    (* newest first *)
  chi_notFoundHandler : option HttpHandlerFunc;
  chi_methodNotAllowedHandler : option HttpHandlerFunc
}.

(** Objects are addressed by their position in the store; allocation
    appends, so an address is valid exactly when it is below the length. *)
Record Store := mkStore {
  arrays : list (list Middleware);
  muxes : list Mux;
  engines : list ChiMux
}.

Definition empty_store : Store := mkStore [] [] [].

(** ** Computations *)

Inductive Panic :=
  | IndexOutOfRange    (* runtime error: index out of range *)
  | NilDereference     (* runtime error: invalid memory address or nil pointer dereference *)
  | InvalidAddress.    (* the store holds no object at an address; unreachable from Go *)

Inductive Res (A : Type) :=
  | Ok (a : A) (s : Store)
  | Panicked (p : Panic).
Arguments Ok {A} a s.
Arguments Panicked {A} p.

Definition M (A : Type) : Type := Store -> Res A.

#[global] Instance M_ret : MRet M := fun A a s => Ok a s.
#[global] Instance M_bind : MBind M := fun A B f c s =>
  match c s with
  | Ok a s' => f a s'
  | Panicked p => Panicked p
  end.

Definition panic {A} (p : Panic) : M A := fun _ => Panicked p.

Definition lift_option {A} (o : option A) : M A :=
  match o with
  | Some a => mret a
  | None => panic InvalidAddress
  end.

(** *** Store access *)

Definition set_arrays (s : Store) (a : list (list Middleware)) : Store :=
  mkStore a (muxes s) (engines s).
Definition set_muxes (s : Store) (ms : list Mux) : Store :=
  mkStore (arrays s) ms (engines s).
Definition set_engines (s : Store) (es : list ChiMux) : Store :=
  mkStore (arrays s) (muxes s) es.

Definition alloc_array (arr : list Middleware) : M loc :=
  fun s => Ok (length (arrays s)) (set_arrays s (arrays s ++ [arr])).
Definition load_array (l : loc) : M (list Middleware) :=
  fun s => lift_option (arrays s !! l) s.
Definition store_array (l : loc) (arr : list Middleware) : M unit :=
  fun s =>
    match arrays s !! l with
    | Some _ => Ok tt (set_arrays s (<[l:=arr]> (arrays s)))
    | None => Panicked InvalidAddress
    end.

Definition alloc_mux (m : Mux) : M loc :=
  fun s => Ok (length (muxes s)) (set_muxes s (muxes s ++ [m])).
Definition load_mux (l : loc) : M Mux :=
  fun s => lift_option (muxes s !! l) s.
Definition store_mux (l : loc) (m : Mux) : M unit :=
  fun s =>
    match muxes s !! l with
    | Some _ => Ok tt (set_muxes s (<[l:=m]> (muxes s)))
    | None => Panicked InvalidAddress
    end.

Definition alloc_engine (e : ChiMux) : M loc :=
  fun s => Ok (length (engines s)) (set_engines s (engines s ++ [e])).
Definition load_engine (l : loc) : M ChiMux :=
  fun s => lift_option (engines s !! l) s.
Definition store_engine (l : loc) (e : ChiMux) : M unit :=
  fun s =>
    match engines s !! l with
    | Some _ => Ok tt (set_engines s (<[l:=e]> (engines s)))
    | None => Panicked InvalidAddress
    end.

(** ** What the embedding takes from its environment *)

Class Environment := {
  (** The capacity the Go runtime picks when [append] has to move a slice
      of capacity [cap] to make room for [needed] elements. *)
  growslice : forall (cap needed : nat), nat;
  (** Whether the engine considers a registered pattern to match a request
      path. *)
  route_match : forall (pattern path : string), bool
}.

(** ** Go slices *)

(** The elements [sl[0], ..., sl[len(sl)-1]] of a slice, when the header
    describes a region of an allocated backing array. *)
Definition slice_view (s : Store) (sl : slice) : option (list Middleware) :=
  match s_ptr sl with
  | None => if (s_len sl =? 0) && (s_cap sl =? 0) then Some [] else None
  | Some l =>
      match arrays s !! l with
      | Some arr =>
          if (s_len sl <=? s_cap sl) && (s_cap sl <=? length arr)
          then Some (take (s_len sl) arr)
          else None
      | None => None
      end
  end.

(** Reading all elements of a slice, as in the spread [sl...]. *)
Definition slice_elems (sl : slice) : M (list Middleware) :=
  fun s => lift_option (slice_view s sl) s.

(** [sl[i]] *)
Definition slice_index (sl : slice) (i : nat) : M Middleware :=
  if i <? s_len sl then
    match s_ptr sl with
    | Some l => arr ← load_array l; lift_option (arr !! i)
    | None => panic InvalidAddress
    end
  else panic IndexOutOfRange.

(** [make([]Middleware, len, cap)] for [len <= cap]. *)
Definition go_make (len cap : nat) : M slice :=
  l ← alloc_array (replicate cap None);
  mret (Slice (Some l) len cap).

(** [[]Middleware{}] *)
Definition empty_slice_literal : M slice := go_make 0 0.

(** [copy(dst, src)] *)
Definition go_copy (dst src : slice) : M nat :=
  xs ← slice_elems src;
  let n := min (s_len dst) (length xs) in
  match s_ptr dst with
  | Some l =>
      arr ← load_array l;
      store_array l (list_inserts 0 (take n xs) arr);;
      mret n
  | None => mret n
  end.

Section WithEnvironment.
Context `{Environment}.

(** [append(sl, xs...)]: stores in place when the backing array has room
    and moves to a fresh, larger array otherwise. *)
Definition go_append (sl : slice) (xs : list Middleware) : M slice :=
  let needed := s_len sl + length xs in
  if needed <=? s_cap sl then
    match s_ptr sl with
    | Some l =>
        arr ← load_array l;
        store_array l (list_inserts (s_len sl) xs arr);;
        mret (Slice (Some l) needed (s_cap sl))
    | None => mret sl
    end
  else
    old ← slice_elems sl;
    let newcap := max needed (growslice (s_cap sl) needed) in
    l ← alloc_array (old ++ xs ++ replicate (newcap - needed) None);
    mret (Slice (Some l) needed newcap).

(** ** middleware.go: chains *)

Definition NewChain (middlewares : slice) : M Chain :=
  if s_len middlewares =? 0 then
    sl ← empty_slice_literal;
    mret (mkChain sl)
  else mret (mkChain middlewares).

(** Calling a function value of type [Middleware]. *)
Definition call_middleware (m : Middleware) (h : Handler) : M Handler :=
  match m with
  | Some f => mret (f h)
  | None => panic NilDereference
  end.

(** The loop [for i := n - 1; i >= 0; i-- { h = c.middlewares[i](h) }]. *)
Fixpoint Then_loop (c : Chain) (n : nat) (h : Handler) : M Handler :=
  match n with
  | 0 => mret h
  | S i =>
      m ← slice_index (chain_middlewares c) i;
      h ← call_middleware m h;
      Then_loop c i h
  end.

Definition Then (c : Chain) (h : Handler) : M Handler :=
  if s_len (chain_middlewares c) =? 0 then mret h
  else Then_loop c (s_len (chain_middlewares c)) h.

Definition ThenFunc (c : Chain) (fn : HandlerFunc) : M Handler := Then c fn.

Definition Append (c : Chain) (middlewares : slice) : M Chain :=
  newCons ← go_make 0 (s_len (chain_middlewares c) + s_len middlewares);
  mine ← slice_elems (chain_middlewares c);
  newCons ← go_append newCons mine;
  more ← slice_elems middlewares;
  newCons ← go_append newCons more;
  mret (mkChain newCons).

Definition Extend (c chain : Chain) : M Chain :=
  Append c (chain_middlewares chain).

(** ** The engine's interface *)

(** [chi.NewMux()] *)
Definition chi_NewMux : M loc := alloc_engine (mkChi [] None None).

Definition chi_add_route (mx : loc) (rt : ChiRoute) : M unit :=
  e ← load_engine mx;
  store_engine mx
    (mkChi (rt :: chi_routes e) (chi_notFoundHandler e)
       (chi_methodNotAllowedHandler e)).

(** [mx.Handle(pattern, h)] *)
Definition chi_Handle (mx : loc) (pattern : string) (h : HttpHandlerFunc)
  : M unit := chi_add_route mx (mkRoute None pattern h).

(** [mx.Method(method, pattern, h)] *)
Definition chi_Method (mx : loc) (method pattern : string)
  (h : HttpHandlerFunc) : M unit :=
  chi_add_route mx (mkRoute (Some method) pattern h).

(** [mx.NotFound(h)] *)
Definition chi_NotFound (mx : loc) (h : HttpHandlerFunc) : M unit :=
  e ← load_engine mx;
  store_engine mx
    (mkChi (chi_routes e) (Some h) (chi_methodNotAllowedHandler e)).

(** [mx.MethodNotAllowed(h)] *)
Definition chi_MethodNotAllowed (mx : loc) (h : HttpHandlerFunc) : M unit :=
  e ← load_engine mx;
  store_engine mx (mkChi (chi_routes e) (chi_notFoundHandler e) (Some h)).

Definition chi_NotFoundHandler (e : ChiMux) : HttpHandlerFunc :=
  match chi_notFoundHandler e with
  | Some h => h
  | None => http_NotFound
  end.

Definition chi_MethodNotAllowedHandler (e : ChiMux) : HttpHandlerFunc :=
  match chi_methodNotAllowedHandler e with
  | Some h => h
  | None => fun w _ => w ++ [WriteHeader 405]
  end.

Definition route_allows (method : string) (rt : ChiRoute) : bool :=
  match route_method rt with
  | Some m => String.eqb m method
  | None => true
  end.

(** Dispatch: no route for the path goes to the not-found hook; routes for
    the path but none for the method go to the method-not-allowed hook. *)
Definition chi_dispatch (e : ChiMux) : HttpHandlerFunc :=
  fun w r =>
    match List.filter (fun rt => route_match (route_pattern rt) (r_Path r))
            (chi_routes e) with
    | [] => chi_NotFoundHandler e w r
    | rt :: rts =>
        match List.find (route_allows (r_Method r)) (rt :: rts) with
        | Some rt => route_handler rt w r
        | None => chi_MethodNotAllowedHandler e w r
        end
    end.

(** [mx.ServeHTTP(w, r)] *)
Definition chi_ServeHTTP (mx : loc) (w : ResponseWriter) (r : Request)
  : M ResponseWriter :=
  e ← load_engine mx;
  mret (chi_dispatch e w r).

(** ** mux.go: the router *)

Definition NewMux : M loc :=
  mx ← chi_NewMux;
  sl ← empty_slice_literal;
  alloc_mux (mkMux mx sl "").

Definition Use (m : loc) (middlewares : slice) : M unit :=
  mo ← load_mux m;
  more ← slice_elems middlewares;
  mws ← go_append (mux_middlewares mo) more;
  store_mux m (mkMux (mux_chi mo) mws (mux_prefix mo)).

Definition With (m : loc) (middlewares : slice) : M loc :=
  mo ← load_mux m;
  mws ← go_make (s_len (mux_middlewares mo)) (s_len (mux_middlewares mo));
  go_copy mws (mux_middlewares mo);;
  more ← slice_elems middlewares;
  mws ← go_append mws more;
  alloc_mux (mkMux (mux_chi mo) mws (mux_prefix mo)).

(** A callback taking a [*Mux]; [None] is the nil function. *)
Definition MuxFunc := option (loc -> M unit).

Definition Group (m : loc) (fn : MuxFunc) : M loc :=
  im ← With m nil_slice;
  match fn with
  | Some fn => fn im
  | None => mret tt
  end;;
  mret im.

(** [s[i]] on a string, with [i] a Go [int]. *)
Definition string_index (s : string) (i : Z) : M ascii :=
  if ((0 <=? i) && (i <? Z.of_nat (String.length s)))%Z
  then lift_option (String.get (Z.to_nat i) s)
  else panic IndexOutOfRange.

Definition Route (m : loc) (pattern : string) (fn : MuxFunc) : M loc :=
  c ← string_index pattern (Z.of_nat (String.length pattern) - 1);
  let pattern :=
    if Ascii.eqb c "/" then pattern else pattern +:+ "/" in
  im ← With m nil_slice;
  imo ← load_mux im;
  store_mux im
    (mkMux (mux_chi imo) (mux_middlewares imo) (mux_prefix imo +:+ pattern));;
  match fn with
  | Some fn => fn im
  | None => mret tt
  end;;
  mret im.

Definition Handle (m : loc) (pattern : string) (handler : Handler) : M unit :=
  mo ← load_mux m;
  c ← NewChain (mux_middlewares mo);
  h ← Then c handler;
  chi_Handle (mux_chi mo) (mux_prefix mo +:+ pattern) (adaptor h).

Definition HandleFunc (m : loc) (pattern : string) (handlerFn : HandlerFunc)
  : M unit := Handle m pattern handlerFn.

Definition Method (m : loc) (method pattern : string) (h : Handler)
  : M unit :=
  mo ← load_mux m;
  c ← NewChain (mux_middlewares mo);
  h ← Then c h;
  chi_Method (mux_chi mo) method (mux_prefix mo +:+ pattern) (adaptor h).

Definition MethodFunc (m : loc) (method pattern : string)
  (handlerFn : HandlerFunc) : M unit := Method m method pattern handlerFn.

Definition Connect (m : loc) (pattern : string) (handlerFn : HandlerFunc)
  : M unit := Method m "CONNECT" pattern handlerFn.

Definition Delete (m : loc) (pattern : string) (handlerFn : HandlerFunc)
  : M unit := Method m "DELETE" pattern handlerFn.

Definition Get (m : loc) (pattern : string) (handlerFn : HandlerFunc)
  : M unit := Method m "GET" pattern handlerFn.

Definition Head (m : loc) (pattern : string) (handlerFn : HandlerFunc)
  : M unit := Method m "HEAD" pattern handlerFn.

Definition Options (m : loc) (pattern : string) (handlerFn : HandlerFunc)
  : M unit := Method m "OPTIONS" pattern handlerFn.

Definition Patch (m : loc) (pattern : string) (handlerFn : HandlerFunc)
  : M unit := Method m "PATCH" pattern handlerFn.

Definition Post (m : loc) (pattern : string) (handlerFn : HandlerFunc)
  : M unit := Method m "POST" pattern handlerFn.

Definition Put (m : loc) (pattern : string) (handlerFn : HandlerFunc)
  : M unit := Method m "PUT" pattern handlerFn.

Definition Trace (m : loc) (pattern : string) (handlerFn : HandlerFunc)
  : M unit := Method m "TRACE" pattern handlerFn.

Definition NotFound (m : loc) (handlerFn : HandlerFunc) : M unit :=
  mo ← load_mux m;
  chi_NotFound (mux_chi mo) (adaptor handlerFn).

Definition MethodNotAllowed (m : loc) (handlerFn : HandlerFunc) : M unit :=
  mo ← load_mux m;
  chi_NotFound (mux_chi mo) (adaptor handlerFn).

Definition ServeHTTP (m : loc) (w : ResponseWriter) (r : Request)
  : M ResponseWriter :=
  mo ← load_mux m;
  chi_ServeHTTP (mux_chi mo) w r.

End WithEnvironment.

(** ** The pure content of a chain *)

(** What [Then] computes from the elements of a chain: the handler
    [m1 (m2 (... (mn h)))], or nothing when an element is the nil
    function. *)
Fixpoint compose (ms : list Middleware) (h : Handler) : option Handler :=
  match ms with
  | [] => Some h
  | m :: ms =>
      match compose ms h, m with
      | Some k, Some f => Some (f k)
      | _, _ => None
      end
  end.

(** A middleware that records [t] on the writer and then calls the next
    handler. *)
Definition observes (t : WriterCall) (f : MiddlewareFunc) : Prop :=
  forall next w r, f next w r = next (w ++ [t]) r.

(** The router object at an address as the program sees it: its engine,
    the elements of its middleware list and its prefix. *)
Definition mux_view (s : Store) (m : loc)
  : option (loc * list Middleware * string) :=
  match muxes s !! m with
  | Some mo =>
      match slice_view s (mux_middlewares mo) with
      | Some mws => Some (mux_chi mo, mws, mux_prefix mo)
      | None => None
      end
  | None => None
  end.

(** Whether a string ends with the path separator. *)
Fixpoint ends_with_slash (p : string) : bool :=
  match p with
  | EmptyString => false
  | String c EmptyString => Ascii.eqb c "/"
  | String _ p' => ends_with_slash p'
  end.

(** A pattern with the path separator appended unless it already ends
    with one. *)
Definition with_trailing_slash (p : string) : string :=
  if ends_with_slash p then p else p +:+ "/".

(** The route table of an engine with one more route. *)
Definition with_route (e : ChiMux) (rt : ChiRoute) : ChiMux :=
  mkChi (rt :: chi_routes e) (chi_notFoundHandler e)
    (chi_methodNotAllowedHandler e).

(** An environment to run examples in: [append] doubles the capacity and
    the engine matches patterns literally. *)
#[global] Instance literal_env : Environment :=
  {| growslice := fun cap _ => 2 * cap; route_match := String.eqb |}.

(** A middleware that records [t] before calling the next handler, and a
    handler that records [t] and succeeds. *)
Definition recording (t : string) : MiddlewareFunc :=
  fun next w r => next (w ++ [Write t]) r.

Definition answering (t : string) : Handler :=
  fun w _ => (w ++ [Write t], None).

(** A store holding one backing array with two recording middlewares, and
    the slice over it. *)
Definition two_store : Store :=
  mkStore [[Some (recording "m1"); Some (recording "m2")]] [] [].

Definition two_slice : slice := Slice (Some 0) 2 2.

(** The address of the backing array of a router's middleware list. *)
Definition mux_array (s : Store) (m : loc) : option loc :=
  match muxes s !! m with
  | Some mo => s_ptr (mux_middlewares mo)
  | None => None
  end.

(** The store [NewMux] leaves when run on the empty store: the root router
    at address 0, its empty middleware list and its engine. *)
Definition root_store : Store :=
  mkStore [[]] [mkMux 0 (Slice (Some 0) 0 0) ""] [mkChi [] None None].

(** A store with a router under ["/api/"] whose middleware list has one
    element and room for a second, and two one-element argument slices. *)
Definition spare_store : Store :=
  mkStore
    [[Some (recording "a"); None]; [Some (recording "x")];
     [Some (recording "y")]]
    [mkMux 0 (Slice (Some 0) 1 2) "/api/"]
    [mkChi [] None None].

(** The root router after [Get("/a", ...)]: its engine has one route. *)
Definition routed_store : Store :=
  mkStore [[]; []] [mkMux 0 (Slice (Some 0) 0 0) ""]
    [mkChi [mkRoute (Some "GET") "/a" (adaptor (answering "a"))] None None].

(** ** The remaining handlers of the handler file *)

(** [strings.HasPrefix(s, prefix)] *)
Fixpoint HasPrefix (s prefix : string) {struct prefix} : bool :=
  match prefix, s with
  | EmptyString, _ => true
  | String a prefix', String b s' => Ascii.eqb a b && HasPrefix s' prefix'
  | String _ _, EmptyString => false
  end.

(** [s[n:]] for [n <= len(s)] *)
Fixpoint string_drop (n : nat) (s : string) : string :=
  match n, s with
  | S n', String _ s' => string_drop n' s'
  | _, _ => s
  end.

(** [strings.TrimPrefix(s, prefix)] *)
Definition TrimPrefix (s prefix : string) : string :=
  if HasPrefix s prefix then string_drop (String.length prefix) s else s.

(** The shallow copy of a request with [URL.Path] replaced. *)
Definition with_path (r : Request) (p : string) : Request :=
  {| r_Method := r_Method r; r_Path := p |}.

(** [http.StripPrefix(prefix, h)].  The handler it is given may assign to
    variables it captures; [V] is the type of their values, which the
    handler takes and returns. *)
Definition http_StripPrefix {V : Type} (prefix : string)
    (h : V -> ResponseWriter -> Request -> V * ResponseWriter)
  : V -> ResponseWriter -> Request -> V * ResponseWriter :=
  if String.eqb prefix "" then h
  else fun v w r =>
    let p := TrimPrefix (r_Path r) prefix in
    if String.length p <? String.length (r_Path r)
    then h v w (with_path r p)
    else (v, http_NotFound w r).


(** [StripPrefix(prefix, h)]: the variable [err] starts as nil, is assigned
    by the function handed to [http.StripPrefix] and is returned. *)
Definition StripPrefix (prefix : string) (h : Handler) : Handler :=
  fun w r =>
    let err : option error := None in
    let '(err, w) :=
      http_StripPrefix prefix
        (fun _ w r => let '(w, err) := h w r in (err, w)) err w r in
    (w, err).

(** * Properties *)

(** ** Lists and stores *)

Lemma list_inserts_split {A} (i : nat) (k l : list A) :
  i + length k <= length l ->
  list_inserts i k l = take i l ++ k ++ drop (i + length k) l.
Proof.
  intros Hle.
  rewrite <- (take_drop i l) at 1.
  assert (Hi : length (take i l) = i) by (rewrite length_take; lia).
  rewrite <- Hi at 1.
  rewrite <- (Nat.add_0_r (length (take i l))), list_inserts_app_r.
  f_equal.
  rewrite <- (take_drop (length k) (drop i l)), drop_drop.
  apply list_inserts_0_r.
  rewrite length_take, length_drop. lia.
Qed.

Lemma take_list_inserts {A} (i : nat) (k l : list A) :
  i + length k <= length l ->
  take (i + length k) (list_inserts i k l) = take i l ++ k.
Proof.
  intros Hle. rewrite list_inserts_split by done.
  rewrite app_assoc. apply take_app_length'.
  rewrite length_app, length_take. lia.
Qed.

Lemma take_list_inserts_below {A} (n i : nat) (k l : list A) :
  n <= i -> take n (list_inserts i k l) = take n l.
Proof.
  intros Hn. apply list_eq. intros j.
  destruct (decide (j < n)) as [Hj|Hj].
  - rewrite !lookup_take_lt by done.
    apply list_lookup_inserts_lt. lia.
  - rewrite !lookup_take_ge by lia. done.
Qed.

Lemma insert_snoc {A} (l : list A) (a b : A) :
  <[length l:=b]> (l ++ [a]) = l ++ [b].
Proof.
  rewrite <- (Nat.add_0_r (length l)). by rewrite insert_app_r.
Qed.

Lemma lookup_snoc {A} (l : list A) (a : A) :
  (l ++ [a]) !! length l = Some a.
Proof. by rewrite list_lookup_middle. Qed.

(** ** Slices *)

Lemma slice_view_length s sl xs :
  slice_view s sl = Some xs -> length xs = s_len sl.
Proof.
  unfold slice_view. destruct (s_ptr sl) as [l|].
  - destruct (arrays s !! l) as [arr|]; [|done].
    destruct (Nat.leb_spec (s_len sl) (s_cap sl)) as [H1|]; [|done].
    destruct (Nat.leb_spec (s_cap sl) (length arr)) as [H2|]; [|done].
    intros [= <-]. rewrite length_take. lia.
  - destruct (s_len sl) as [|n]; simpl; [|done].
    destruct (s_cap sl =? 0); intros [= <-]; done.
Qed.

(** A view depends only on the first [len] cells of the slice's own
    backing array. *)
Lemma slice_view_stable s s' sl xs :
  slice_view s sl = Some xs ->
  (forall l arr, s_ptr sl = Some l -> arrays s !! l = Some arr ->
     exists arr', arrays s' !! l = Some arr' /\ length arr <= length arr' /\
                  take (s_len sl) arr' = take (s_len sl) arr) ->
  slice_view s' sl = Some xs.
Proof.
  unfold slice_view. intros Hv Hsame.
  destruct (s_ptr sl) as [l|]; [|done].
  destruct (arrays s !! l) as [arr|] eqn:Harr; [|done].
  destruct (Hsame l arr eq_refl Harr) as (arr' & -> & Hlen & Htake).
  destruct (Nat.leb_spec (s_len sl) (s_cap sl)) as [H1|]; [|done].
  destruct (Nat.leb_spec (s_cap sl) (length arr)) as [H2|]; [|done].
  rewrite (proj2 (Nat.leb_le (s_cap sl) (length arr')));
    [simpl|lia].
  by rewrite Htake.
Qed.

Lemma slice_view_prefix s s' sl xs :
  slice_view s sl = Some xs ->
  arrays s `prefix_of` arrays s' ->
  slice_view s' sl = Some xs.
Proof.
  intros Hv Hpre. apply (slice_view_stable s); [done|].
  intros l arr _ Hl. exists arr. split_and!; [|done..].
  by eapply prefix_lookup_Some.
Qed.

Lemma slice_view_ptr_lt s sl xs l :
  slice_view s sl = Some xs -> s_ptr sl = Some l -> l < length (arrays s).
Proof.
  unfold slice_view. intros Hv Hp. rewrite Hp in Hv.
  destruct (arrays s !! l) eqn:Hl; [|done].
  by eapply lookup_lt_Some.
Qed.

(** ** Running computations *)

Lemma bind_Ok {A B} (c : M A) (k : A -> M B) s a s1 :
  c s = Ok a s1 -> (c ≫= k) s = k a s1.
Proof. unfold mbind, M_bind. by intros ->. Qed.

Lemma slice_elems_view s sl xs :
  slice_view s sl = Some xs -> slice_elems sl s = Ok xs s.
Proof. unfold slice_elems. by intros ->. Qed.

Lemma slice_index_view s sl ms i m :
  slice_view s sl = Some ms -> ms !! i = Some m ->
  slice_index sl i s = Ok m s.
Proof.
  intros Hv Hi. pose proof (slice_view_length _ _ _ Hv) as Hlen.
  pose proof (lookup_lt_Some _ _ _ Hi) as Hlt.
  unfold slice_index, slice_view in *.
  destruct (Nat.ltb_spec i (s_len sl)); [|lia].
  destruct (s_ptr sl) as [l|].
  - unfold load_array. destruct (arrays s !! l) as [arr|] eqn:Harr; [|done].
    erewrite bind_Ok; [|by rewrite Harr].
    destruct (_ && _); [|done]. injection Hv as <-.
    rewrite lookup_take_lt in Hi by done. by rewrite Hi.
  - destruct (_ && _); [|done]. injection Hv as <-. done.
Qed.

(** ** Chains *)

Lemma compose_snoc ms m h :
  compose (ms ++ [m]) h =
  match m with
  | Some f => compose ms (f h)
  | None => None
  end.
Proof.
  induction ms as [|m' ms IH]; simpl.
  - by destruct m.
  - rewrite IH. by destruct m.
Qed.

Lemma compose_funcs (fs : list MiddlewareFunc) h :
  compose (Some <$> fs) h = Some (foldr (fun f k => f k) h fs).
Proof.
  induction fs as [|f fs IH]; [done|].
  rewrite fmap_cons. cbn [compose foldr]. by rewrite IH.
Qed.

Lemma compose_observes fs ts h w r :
  Forall2 (fun f t => observes t f) fs ts ->
  foldr (fun f k => f k) h fs w r = h (w ++ ts) r.
Proof.
  intros Hobs. revert w.
  induction Hobs as [|f t fs ts Hf _ IH]; intros w; simpl.
  - by rewrite app_nil_r.
  - rewrite Hf, IH. by rewrite <- app_assoc.
Qed.

Section ChainProperties.
Context `{Environment}.

Lemma Then_loop_view s c ms n h :
  slice_view s (chain_middlewares c) = Some ms ->
  n <= length ms ->
  Then_loop c n h s =
  match compose (take n ms) h with
  | Some k => Ok k s
  | None => Panicked NilDereference
  end.
Proof.
  intros Hv. revert h. induction n as [|n IH]; intros h Hn; [done|].
  destruct (lookup_lt_is_Some_2 ms n) as [m Hm]; [lia|].
  rewrite (take_S_r _ _ _ Hm), compose_snoc. simpl.
  erewrite bind_Ok; [|by eapply slice_index_view].
  destruct m as [f|]; [|done].
  erewrite bind_Ok; [|done]. apply IH. lia.
Qed.

Lemma Then_view s c ms h :
  slice_view s (chain_middlewares c) = Some ms ->
  Then c h s =
  match compose ms h with
  | Some k => Ok k s
  | None => Panicked NilDereference
  end.
Proof.
  intros Hv. pose proof (slice_view_length _ _ _ Hv) as Hlen.
  unfold Then. destruct (Nat.eqb_spec (s_len (chain_middlewares c)) 0) as [H0|].
  - destruct ms; [done|]. simpl in Hlen. lia.
  - rewrite (Then_loop_view _ _ ms) by (done || lia).
    by rewrite take_ge by lia.
Qed.

Lemma NewChain_view s sl ms :
  slice_view s sl = Some ms ->
  exists c s',
    NewChain sl s = Ok c s' /\
    slice_view s' (chain_middlewares c) = Some ms /\
    arrays s `prefix_of` arrays s' /\
    muxes s' = muxes s /\ engines s' = engines s.
Proof.
  intros Hv. pose proof (slice_view_length _ _ _ Hv) as Hlen.
  unfold NewChain. destruct (Nat.eqb_spec (s_len sl) 0) as [H0|].
  - destruct ms; [|simpl in Hlen; lia].
    eexists _, _. split; [reflexivity|]. simpl. split_and!; [|by eexists|done..].
    unfold slice_view. simpl. by rewrite lookup_snoc.
  - exists (mkChain sl), s. done.
Qed.

End ChainProperties.

(** ** The slice builtins *)

Lemma prefix_intro {A} (l k : list A) :
  (forall i, i < length l -> k !! i = l !! i) -> l `prefix_of` k.
Proof.
  intros Hlk. exists (drop (length l) k).
  rewrite <- (take_drop (length l) k) at 1. f_equal.
  apply list_eq. intros i. destruct (decide (i < length l)) as [Hi|Hi].
  - by rewrite lookup_take_lt, Hlk.
  - rewrite lookup_take_ge by lia. symmetry. apply lookup_ge_None_2. lia.
Qed.

Lemma store_array_Ok s l arr arr' :
  arrays s !! l = Some arr ->
  store_array l arr' s = Ok tt (set_arrays s (<[l:=arr']> (arrays s))).
Proof. unfold store_array. by intros ->. Qed.

Lemma load_array_Ok s l arr :
  arrays s !! l = Some arr -> load_array l s = Ok arr s.
Proof. unfold load_array. by intros ->. Qed.

Section SliceProperties.
Context `{Environment}.

(** [append] returns a slice holding the old elements followed by the new
    ones.  It leaves the receiver's own view and every other backing array
    as they were, and its result either stays in the receiver's array or
    sits in a newly allocated one. *)
Lemma go_append_view s sl old xs :
  slice_view s sl = Some old ->
  exists sl' s',
    go_append sl xs s = Ok sl' s' /\
    slice_view s' sl' = Some (old ++ xs) /\
    slice_view s' sl = Some old /\
    muxes s' = muxes s /\ engines s' = engines s /\
    (forall l, l < length (arrays s) -> s_ptr sl <> Some l ->
       arrays s' !! l = arrays s !! l) /\
    (s_ptr sl' = s_ptr sl /\ length (arrays s') = length (arrays s) \/
     s_ptr sl' = Some (length (arrays s))).
Proof.
  intros Hv. pose proof (slice_view_length _ _ _ Hv) as Hlen.
  unfold go_append.
  destruct (Nat.leb_spec (s_len sl + length xs) (s_cap sl)) as [Hcap|Hcap].
  - destruct (s_ptr sl) as [l|] eqn:Hptr.
    + assert (exists arr, arrays s !! l = Some arr /\ s_cap sl <= length arr /\
                old = take (s_len sl) arr) as (arr & Harr & Hca & ->).
      { unfold slice_view in Hv. rewrite Hptr in Hv.
        destruct (arrays s !! l) as [arr|]; [|done]. exists arr.
        destruct (Nat.leb_spec (s_len sl) (s_cap sl)); [|done].
        destruct (Nat.leb_spec (s_cap sl) (length arr)); [|done].
        by injection Hv as <-. }
      erewrite bind_Ok; [|by apply load_array_Ok].
      erewrite bind_Ok; [|by eapply store_array_Ok].
      eexists _, _. split; [reflexivity|].
      assert (Hl : l < length (arrays s)) by by eapply lookup_lt_Some.
      split_and!; try done.
      * unfold slice_view. simpl. rewrite list_lookup_insert_eq by done.
        rewrite length_inserts.
        rewrite (proj2 (Nat.leb_le _ _) Hcap), (proj2 (Nat.leb_le _ _) Hca).
        simpl. f_equal. apply take_list_inserts. lia.
      * apply (slice_view_stable s); [done|].
        intros l' arr'. rewrite Hptr. intros [= <-] Harr'.
        assert (arr' = arr) as -> by congruence.
        eexists. simpl. rewrite list_lookup_insert_eq by done.
        split_and!; [done|by rewrite length_inserts|].
        by apply take_list_inserts_below.
      * intros l' _ Hne. simpl. apply list_lookup_insert_ne.
        intros ->. by apply Hne.
      * left. simpl. by rewrite length_insert.
    + exists sl, s. split_and!; try done; [|by left].
      assert (xs = []) as ->; [|by rewrite app_nil_r].
      unfold slice_view in Hv. rewrite Hptr in Hv.
      destruct (Nat.eqb_spec (s_len sl) 0); [|done].
      destruct (Nat.eqb_spec (s_cap sl) 0); [|done].
      destruct xs; [done|]. simpl in Hcap. lia.
  - erewrite bind_Ok; [|by apply slice_elems_view].
    eexists _, _. split; [reflexivity|]. simpl.
    split_and!; try done.
    + unfold slice_view. simpl. rewrite lookup_snoc.
      rewrite !length_app, length_replicate.
      set (needed := s_len sl + length xs) in *.
      set (newcap := needed `max` growslice (s_cap sl) needed).
      rewrite (proj2 (Nat.leb_le needed newcap)) by lia.
      rewrite (proj2 (Nat.leb_le newcap _)) by lia.
      simpl. f_equal. rewrite app_assoc. apply take_app_length'.
      rewrite length_app. lia.
    + apply (slice_view_prefix s); [done|]. by eexists.
    + intros l Hl _. by apply lookup_app_l.
    + by right.
Qed.

Lemma go_make_Ok s len cap :
  go_make len cap s =
  Ok (Slice (Some (length (arrays s))) len cap)
     (set_arrays s (arrays s ++ [replicate cap None])).
Proof. done. Qed.

(** [copy] into a slice made for the purpose fills its array with the
    source's elements. *)
Lemma go_copy_fresh s a src xs :
  slice_view (set_arrays s a) src = Some xs ->
  go_copy (Slice (Some (length a)) (length xs) (length xs)) src
    (set_arrays s (a ++ [replicate (length xs) None])) =
  Ok (length xs) (set_arrays s (a ++ [xs])).
Proof.
  intros Hv. unfold go_copy.
  erewrite bind_Ok;
    [|apply slice_elems_view, (slice_view_prefix _ _ _ _ Hv); by eexists].
  simpl. rewrite Nat.min_id, take_ge by done.
  erewrite bind_Ok; [|apply load_array_Ok; simpl; apply lookup_snoc].
  erewrite bind_Ok; [|eapply store_array_Ok; simpl; apply lookup_snoc].
  simpl. unfold mret, M_ret, set_arrays. simpl. do 2 f_equal.
  rewrite insert_snoc. do 2 f_equal.
  rewrite <- (app_nil_r (replicate _ _)).
  rewrite list_inserts_0_r by by rewrite length_replicate.
  apply app_nil_r.
Qed.

End SliceProperties.

Section AppendProperties.
Context `{Environment}.

Lemma go_append_inplace s sl l arr xs :
  s_ptr sl = Some l -> arrays s !! l = Some arr ->
  s_len sl + length xs <= s_cap sl ->
  go_append sl xs s =
  Ok (Slice (Some l) (s_len sl + length xs) (s_cap sl))
     (set_arrays s (<[l:=list_inserts (s_len sl) xs arr]> (arrays s))).
Proof.
  intros Hptr Harr Hcap. unfold go_append.
  rewrite (proj2 (Nat.leb_le _ _) Hcap), Hptr.
  erewrite bind_Ok; [|by apply load_array_Ok].
  erewrite bind_Ok; [|by eapply store_array_Ok].
  done.
Qed.

(** [Append] allocates one array, holding the receiver's elements followed
    by the arguments, and changes nothing else in the store. *)
Lemma Append_Ok s c more xs ys :
  slice_view s (chain_middlewares c) = Some xs ->
  slice_view s more = Some ys ->
  Append c more s =
  Ok (mkChain (Slice (Some (length (arrays s)))
                 (length xs + length ys) (length xs + length ys)))
     (set_arrays s (arrays s ++ [xs ++ ys])).
Proof.
  intros Hxs Hys.
  pose proof (slice_view_length _ _ _ Hxs) as Hn.
  pose proof (slice_view_length _ _ _ Hys) as Hk.
  unfold Append. rewrite <- Hn, <- Hk.
  erewrite bind_Ok; [|apply go_make_Ok].
  set (a := arrays s).
  assert (Hpre : forall b, a `prefix_of` arrays (set_arrays s (a ++ [b])))
    by (intros b; by eexists).
  erewrite bind_Ok;
    [|apply slice_elems_view, (slice_view_prefix _ _ _ _ Hxs), Hpre].
  erewrite bind_Ok;
    [|eapply go_append_inplace; [done|apply lookup_snoc|simpl; lia]].
  simpl. rewrite insert_snoc.
  erewrite bind_Ok;
    [|apply slice_elems_view, (slice_view_prefix _ _ _ _ Hys), Hpre].
  erewrite bind_Ok;
    [|eapply go_append_inplace; [done|apply lookup_snoc|simpl; lia]].
  simpl. rewrite insert_snoc. unfold mret, M_ret, set_arrays. simpl.
  do 4 f_equal.
  rewrite replicate_add.
  rewrite list_inserts_0_r by by rewrite length_replicate.
  rewrite <- (Nat.add_0_r (length xs)) at 1.
  rewrite list_inserts_app_r. f_equal.
  rewrite <- (app_nil_r (replicate _ _)).
  rewrite list_inserts_0_r by by rewrite length_replicate.
  apply app_nil_r.
Qed.

End AppendProperties.

(** ** Routers *)

Lemma mux_view_inv s m e mws pre :
  mux_view s m = Some (e, mws, pre) ->
  exists sl, muxes s !! m = Some (mkMux e sl pre) /\
             slice_view s sl = Some mws.
Proof.
  unfold mux_view. destruct (muxes s !! m) as [[e' sl pre']|]; [|done].
  simpl. destruct (slice_view s sl) eqn:Hv; [|done].
  intros [= -> -> ->]. by exists sl.
Qed.

Lemma mux_view_intro s m e sl mws pre :
  muxes s !! m = Some (mkMux e sl pre) ->
  slice_view s sl = Some mws ->
  mux_view s m = Some (e, mws, pre).
Proof. unfold mux_view. intros -> Hv. simpl. by rewrite Hv. Qed.

Lemma load_mux_Ok s m mo : muxes s !! m = Some mo -> load_mux m s = Ok mo s.
Proof. unfold load_mux. by intros ->. Qed.

Lemma store_mux_Ok s m mo mo' :
  muxes s !! m = Some mo ->
  store_mux m mo' s = Ok tt (set_muxes s (<[m:=mo']> (muxes s))).
Proof. unfold store_mux. by intros ->. Qed.

Lemma load_engine_Ok s l e :
  engines s !! l = Some e -> load_engine l s = Ok e s.
Proof. unfold load_engine. by intros ->. Qed.

Lemma store_engine_Ok s l e e' :
  engines s !! l = Some e ->
  store_engine l e' s = Ok tt (set_engines s (<[l:=e']> (engines s))).
Proof. unfold store_engine. by intros ->. Qed.

Section MuxProperties.
Context `{Environment}.

(** [With] allocates the derived router and a backing array of its own;
    every object that existed before is left as it was. *)
Lemma With_view s m e sl0 pre mws x xs :
  muxes s !! m = Some (mkMux e sl0 pre) ->
  slice_view s sl0 = Some mws ->
  slice_view s x = Some xs ->
  exists sl l s',
    With m x s = Ok (length (muxes s)) s' /\
    muxes s' = muxes s ++ [mkMux e sl pre] /\
    engines s' = engines s /\
    arrays s `prefix_of` arrays s' /\
    slice_view s' sl = Some (mws ++ xs) /\
    s_ptr sl = Some l /\ length (arrays s) <= l.
Proof.
  intros Hm Hmws Hxs.
  pose proof (slice_view_length _ _ _ Hmws) as Hn.
  unfold With.
  erewrite bind_Ok; [|by apply load_mux_Ok]. simpl.
  rewrite <- Hn.
  erewrite bind_Ok; [|apply go_make_Ok].
  erewrite bind_Ok; [|by apply go_copy_fresh].
  set (s2 := set_arrays s (arrays s ++ [mws])).
  assert (Hpre : arrays s `prefix_of` arrays s2) by by eexists.
  erewrite bind_Ok; [|by apply slice_elems_view, (slice_view_prefix s)].
  set (sl1 := Slice (Some (length (arrays s))) (length mws) (length mws)).
  assert (Hsl1 : slice_view s2 sl1 = Some mws).
  { unfold slice_view. simpl. rewrite lookup_snoc, Nat.leb_refl. simpl.
    by rewrite take_ge. }
  destruct (go_append_view s2 sl1 mws xs Hsl1)
    as (sl & s3 & Happ & Hv & _ & Hmux & Heng & Hframe & Hptr).
  erewrite bind_Ok; [|exact Happ].
  assert (Hlen2 : length (arrays s2) = S (length (arrays s)))
    by (simpl; rewrite length_app; simpl; lia).
  assert (exists l, s_ptr sl = Some l /\ length (arrays s) <= l)
    as (l & Hl & Hge).
  { destruct Hptr as [[-> _]| ->].
    - by exists (length (arrays s)).
    - exists (length (arrays s2)). split; [done|]. rewrite Hlen2. lia. }
  exists sl, l, (set_muxes s3 (muxes s3 ++ [mkMux e sl pre])).
  split_and!; try done.
  - unfold alloc_mux. by rewrite Hmux.
  - simpl. by rewrite Hmux.
  - apply prefix_intro. intros i Hi.
    simpl. rewrite Hframe; [|lia|simpl; intros [= ?]; lia].
    simpl. by apply lookup_app_l.
Qed.

(** [Use] replaces the router's slice by the result of [append]; backing
    arrays other than the router's own are left as they were. *)
Lemma Use_view s m e sl0 pre mws y ys :
  muxes s !! m = Some (mkMux e sl0 pre) ->
  slice_view s sl0 = Some mws ->
  slice_view s y = Some ys ->
  exists sl s',
    Use m y s = Ok tt s' /\
    muxes s' = <[m:=mkMux e sl pre]> (muxes s) /\
    engines s' = engines s /\
    slice_view s' sl = Some (mws ++ ys) /\
    (forall l, l < length (arrays s) -> s_ptr sl0 <> Some l ->
       arrays s' !! l = arrays s !! l) /\
    (s_ptr sl = s_ptr sl0 \/ s_ptr sl = Some (length (arrays s))).
Proof.
  intros Hm Hmws Hys. unfold Use.
  erewrite bind_Ok; [|by apply load_mux_Ok]. simpl.
  erewrite bind_Ok; [|by apply slice_elems_view].
  destruct (go_append_view s sl0 mws ys Hmws)
    as (sl & s1 & Happ & Hv & _ & Hmux & Heng & Hframe & Hptr).
  erewrite bind_Ok; [|exact Happ].
  erewrite store_mux_Ok; [|by rewrite Hmux].
  eexists _, _. split; [reflexivity|]. simpl. rewrite Hmux.
  split_and!; try done. destruct Hptr as [[? _]|?]; auto.
Qed.

End MuxProperties.

(** ** Patterns *)

Lemma get_last_char (a : ascii) (p : string) :
  exists c, String.get (String.length p) (String a p) = Some c /\
            Ascii.eqb c "/" = ends_with_slash (String a p).
Proof.
  revert a. induction p as [|b p IH]; intros a.
  - by exists a.
  - destruct (IH b) as (c & Hc & Hs). exists c. split; [exact Hc|].
    rewrite Hs. done.
Qed.

Lemma string_index_last s (p : string) :
  p <> "" ->
  exists c,
    string_index p (Z.of_nat (String.length p) - 1) s = Ok c s /\
    Ascii.eqb c "/" = ends_with_slash p.
Proof.
  destruct p as [|a p]; [done|]. intros _.
  destruct (get_last_char a p) as (c & Hc & Hs). exists c. split; [|done].
  unfold string_index.
  replace (Z.of_nat (String.length (String a p)) - 1)%Z
    with (Z.of_nat (String.length p)) by (simpl String.length; lia).
  destruct (Z.leb_spec 0 (Z.of_nat (String.length p))); [|lia].
  destruct (Z.ltb_spec (Z.of_nat (String.length p))
              (Z.of_nat (String.length (String a p))));
    [|simpl String.length in *; lia].
  simpl andb. cbv iota. rewrite Nat2Z.id, Hc. done.
Qed.

Lemma bind_Panicked_index {B} (k : ascii -> M B) s :
  (string_index "" (Z.of_nat (String.length "") - 1) ≫= k) s =
  Panicked IndexOutOfRange.
Proof. reflexivity. Qed.

Section RouteProperties.
Context `{Environment}.

(** Registration composes the router's middleware around the handler and
    hands the adapted result to the engine under [prefix + pattern]. *)
Lemma Handle_view s m e sl pre mws eng pat h k :
  muxes s !! m = Some (mkMux e sl pre) ->
  slice_view s sl = Some mws ->
  engines s !! e = Some eng ->
  compose mws h = Some k ->
  exists s',
    Handle m pat h s = Ok tt s' /\
    muxes s' = muxes s /\
    arrays s `prefix_of` arrays s' /\
    engines s' =
      <[e:=with_route eng (mkRoute None (pre +:+ pat) (adaptor k))]>
        (engines s).
Proof.
  intros Hm Hv He Hk. unfold Handle.
  erewrite bind_Ok; [|by apply load_mux_Ok]. simpl.
  destruct (NewChain_view s sl mws Hv) as (c & s1 & Hc & Hv1 & Hpre & Hmu & Hen).
  erewrite bind_Ok; [|exact Hc].
  erewrite bind_Ok; [|by rewrite (Then_view _ _ _ _ Hv1), Hk].
  unfold chi_Handle, chi_add_route.
  erewrite bind_Ok; [|by apply load_engine_Ok; rewrite Hen].
  erewrite store_engine_Ok; [|by rewrite Hen].
  eexists. split; [reflexivity|]. simpl. by rewrite Hen.
Qed.

(** A callback runs after the derived router is complete. *)
Lemma Route_callback m p fn s :
  Route m p (Some fn) s = (im ← Route m p None; fn im;; mret im) s.
Proof.
  unfold Route, mbind, M_bind.
  destruct (string_index _ _ s) as [c s1|]; [|done].
  destruct (With m nil_slice s1) as [im s2|]; [|done].
  destruct (load_mux im s2) as [imo s3|]; [|done].
  destruct (store_mux _ _ s3) as [[] s4|]; [|done].
  done.
Qed.

Lemma Route_nil s m e sl0 pre mws p :
  muxes s !! m = Some (mkMux e sl0 pre) ->
  slice_view s sl0 = Some mws ->
  p <> "" ->
  exists sl l s',
    Route m p None s = Ok (length (muxes s)) s' /\
    muxes s' = muxes s ++ [mkMux e sl (pre +:+ with_trailing_slash p)] /\
    engines s' = engines s /\
    arrays s `prefix_of` arrays s' /\
    slice_view s' sl = Some mws /\
    s_ptr sl = Some l /\ length (arrays s) <= l.
Proof.
  intros Hm Hv Hp. unfold Route.
  destruct (string_index_last s p Hp) as (c & Hc & Hs).
  erewrite bind_Ok; [|exact Hc].
  destruct (With_view s m e sl0 pre mws nil_slice [] Hm Hv eq_refl)
    as (sl & l & s1 & HW & Hmu & Hen & Hpre & Hv1 & Hl & Hge).
  rewrite app_nil_r in Hv1.
  erewrite bind_Ok; [|exact HW].
  erewrite bind_Ok; [|apply load_mux_Ok; rewrite Hmu; apply lookup_snoc].
  erewrite bind_Ok; [|eapply store_mux_Ok; rewrite Hmu; apply lookup_snoc].
  erewrite bind_Ok; [|reflexivity].
  exists sl, l. eexists. split; [reflexivity|]. simpl.
  rewrite Hmu, insert_snoc. unfold with_trailing_slash. rewrite <- Hs.
  done.
Qed.

Lemma Group_nil s m e sl0 pre mws :
  muxes s !! m = Some (mkMux e sl0 pre) ->
  slice_view s sl0 = Some mws ->
  exists sl l s',
    Group m None s = Ok (length (muxes s)) s' /\
    muxes s' = muxes s ++ [mkMux e sl pre] /\
    engines s' = engines s /\
    arrays s `prefix_of` arrays s' /\
    slice_view s' sl = Some mws /\
    s_ptr sl = Some l /\ length (arrays s) <= l.
Proof.
  intros Hm Hv. unfold Group.
  destruct (With_view s m e sl0 pre mws nil_slice [] Hm Hv eq_refl)
    as (sl & l & s1 & HW & Hmu & Hen & Hpre & Hv1 & Hl & Hge).
  rewrite app_nil_r in Hv1.
  erewrite bind_Ok; [|exact HW].
  erewrite bind_Ok; [|reflexivity].
  by exists sl, l, s1.
Qed.

End RouteProperties.

(** * The boundary adaptor *)

(** C1.  A handler failing with a status error makes the adaptor call
    [http.Error] twice: once with the failure's status and once more with
    500.  The claim that exactly one response is written for such a
    failure does not hold of [adaptor]. *)
Theorem adaptor_status_failure_writes_twice
    (h : Handler) (w w1 : ResponseWriter) (r : Request)
    (msg : string) (st : Z) :
  h w r = (w1, Some (Error st msg)) ->
  adaptor h w r = w1 ++ [HttpError msg st; HttpError msg 500].
Proof.
  intros Hh. unfold adaptor. rewrite Hh. simpl.
  unfold http_Error. by rewrite <- app_assoc.
Qed.

Lemma adaptor_status_failure_writes_twice_witness :
  let r := {| r_Method := "GET"; r_Path := "/missing" |} in
  ErrorHandler 404 "not found" [] r = ([], Some (Error 404 "not found")) /\
  adaptor (ErrorHandler 404 "not found") [] r =
    [HttpError "not found" 404; HttpError "not found" 500].
Proof.
  intros r. split; [reflexivity|].
  apply (adaptor_status_failure_writes_twice
           (ErrorHandler 404 "not found") [] [] r "not found" 404).
  reflexivity.
Defined.

(** C8.  A failure that exposes no status code is answered with status 500
    and the failure's message; when the handler reports no failure the
    adaptor leaves the writer as the handler left it. *)
Theorem adaptor_plain_failure_and_success
    (h : Handler) (w w1 : ResponseWriter) (r : Request) :
  (forall err, h w r = (w1, Some err) -> error_Status err = None ->
     adaptor h w r = w1 ++ [HttpError (error_Error err) 500]) /\
  (h w r = (w1, None) -> adaptor h w r = w1).
Proof.
  split.
  - intros err Hh Hst. unfold adaptor. rewrite Hh, Hst. done.
  - intros Hh. unfold adaptor. by rewrite Hh.
Qed.

Lemma adaptor_plain_failure_and_success_witness :
  let r := {| r_Method := "GET"; r_Path := "/" |} in
  let failing : Handler :=
    fun w _ => (w ++ [Write "partial"], Some (errorString "boom")) in
  adaptor failing [] r = [Write "partial"; HttpError "boom" 500] /\
  adaptor (answering "ok") [] r = [Write "ok"].
Proof.
  intros r failing. split.
  - apply (proj1 (adaptor_plain_failure_and_success
                    failing [] [Write "partial"] r) (errorString "boom"));
      reflexivity.
  - apply (proj2 (adaptor_plain_failure_and_success
                    (answering "ok") [] [Write "ok"] r)).
    reflexivity.
Defined.

(** * Chains *)

Section ChainTheorems.
Context `{Environment}.

(** C3.  A chain built from the list [m1, ..., mn] composes to
    [m1 (m2 (... (mn h)))].  When each [mi] records an observation and
    calls the next handler, the handler [h] runs once, on a writer that
    holds the observations of [m1], ..., [mn] in that order. *)
Theorem Then_composes_in_declaration_order
    (s : Store) (sl : slice) (fs : list MiddlewareFunc) (h : Handler) :
  slice_view s sl = Some (Some <$> fs) ->
  exists c s',
    NewChain sl s = Ok c s' /\
    Then c h s' = Ok (foldr (fun m k => m k) h fs) s' /\
    forall ts w r,
      Forall2 (fun m t => observes t m) fs ts ->
      foldr (fun m k => m k) h fs w r = h (w ++ ts) r.
Proof.
  intros Hv.
  destruct (NewChain_view s sl _ Hv) as (c & s' & Hc & Hv' & _).
  exists c, s'. split_and!; [done| |].
  - by rewrite (Then_view _ _ _ _ Hv'), compose_funcs.
  - intros ts w r Hobs. by apply compose_observes.
Qed.

(** C7.  [NewChain] without middlewares returns a chain over an empty,
    non-nil slice, and [Then] on it returns the handler it was given. *)
Theorem NewChain_empty_Then_identity (s : Store) (sl : slice) :
  s_len sl = 0 ->
  exists c s',
    NewChain sl s = Ok c s' /\
    s_ptr (chain_middlewares c) <> None /\
    slice_view s' (chain_middlewares c) = Some [] /\
    forall h, Then c h s' = Ok h s'.
Proof.
  intros Hlen. unfold NewChain. rewrite Hlen. simpl.
  eexists _, _. split; [reflexivity|]. simpl. split_and!; [done| |done].
  unfold slice_view. simpl. by rewrite lookup_snoc.
Qed.

(** C6.  [Append] returns a chain over a newly allocated array holding the
    receiver's middlewares followed by the arguments.  Every array that
    existed before is untouched, so the receiver holds what it held and
    [Then] on it composes the receiver's middlewares only.  [Extend] is
    [Append] applied to the other chain's list. *)
Theorem Append_new_chain_receiver_unchanged
    (s : Store) (c : Chain) (more : slice) (xs ys : list Middleware) :
  slice_view s (chain_middlewares c) = Some xs ->
  slice_view s more = Some ys ->
  exists c2 s',
    Append c more s = Ok c2 s' /\
    slice_view s' (chain_middlewares c2) = Some (xs ++ ys) /\
    s_ptr (chain_middlewares c2) = Some (length (arrays s)) /\
    arrays s `prefix_of` arrays s' /\
    slice_view s' (chain_middlewares c) = Some xs /\
    (forall h,
       Then c h s' =
       match compose xs h with
       | Some k => Ok k s'
       | None => Panicked NilDereference
       end) /\
    (forall d, chain_middlewares d = more -> Extend c d s = Ok c2 s').
Proof.
  intros Hxs Hys.
  pose proof (Append_Ok s c more xs ys Hxs Hys) as HA.
  eexists _, _. split; [exact HA|].
  assert (Hpre : arrays s `prefix_of` arrays (set_arrays s (arrays s ++ [xs ++ ys])))
    by by eexists.
  assert (Hc : slice_view (set_arrays s (arrays s ++ [xs ++ ys]))
                 (chain_middlewares c) = Some xs)
    by by apply (slice_view_prefix s).
  split_and!; try done.
  - unfold slice_view. simpl. rewrite lookup_snoc, length_app, Nat.leb_refl.
    simpl. by rewrite <- length_app, take_ge.
  - intros h. by apply Then_view.
  - intros d <-. exact HA.
Qed.

End ChainTheorems.

Lemma Then_composes_in_declaration_order_witness :
  slice_view two_store two_slice =
    Some (Some <$> [recording "m1"; recording "m2"]) /\
  exists c s',
    NewChain two_slice two_store = Ok c s' /\
    Then c (answering "h") s' =
      Ok (recording "m1" (recording "m2" (answering "h"))) s' /\
    recording "m1" (recording "m2" (answering "h")) []
      {| r_Method := "GET"; r_Path := "/" |} =
    ([Write "m1"; Write "m2"; Write "h"], None).
Proof.
  split; [reflexivity|].
  destruct (Then_composes_in_declaration_order two_store
              two_slice [recording "m1"; recording "m2"] (answering "h")
              eq_refl) as (c & s' & Hc & HT & Hobs).
  exists c, s'. split_and!; [exact Hc|exact HT|].
  apply (Hobs [Write "m1"; Write "m2"] []
           {| r_Method := "GET"; r_Path := "/" |}).
  repeat (constructor; [intros next w r; reflexivity|]). constructor.
Defined.

Lemma NewChain_empty_Then_identity_witness :
  s_len nil_slice = 0 /\
  exists c s',
    NewChain nil_slice empty_store = Ok c s' /\
    s_ptr (chain_middlewares c) <> None /\
    slice_view s' (chain_middlewares c) = Some [] /\
    forall h, Then c h s' = Ok h s'.
Proof.
  split; [reflexivity|].
  apply (NewChain_empty_Then_identity empty_store nil_slice). reflexivity.
Defined.

Lemma Append_new_chain_receiver_unchanged_witness :
  let c := mkChain two_slice in
  let xs := [Some (recording "m1"); Some (recording "m2")] in
  slice_view two_store two_slice = Some xs /\
  exists c2 s',
    Append c two_slice two_store = Ok c2 s' /\
    slice_view s' (chain_middlewares c2) = Some (xs ++ xs) /\
    s_ptr (chain_middlewares c2) = Some 1 /\
    arrays two_store `prefix_of` arrays s' /\
    slice_view s' (chain_middlewares c) = Some xs /\
    (forall h,
       Then c h s' =
       match compose xs h with
       | Some k => Ok k s'
       | None => Panicked NilDereference
       end) /\
    (forall d, chain_middlewares d = two_slice -> Extend c d two_store = Ok c2 s').
Proof.
  intros c xs. split; [reflexivity|].
  apply (Append_new_chain_receiver_unchanged two_store c two_slice xs xs);
    reflexivity.
Defined.

(** * Routers *)

Section MuxTheorems.
Context `{Environment}.

(** C9.  [Route] indexes the last byte of its pattern before anything
    else, so the empty pattern panics with an index out of range, whatever
    the router, the callback and the store; for a non-empty pattern that
    index is in range. *)
Theorem Route_empty_pattern_panics (m : loc) (fn : MuxFunc) (s : Store) :
  Route m "" fn s = Panicked IndexOutOfRange /\
  forall p, p <> "" ->
    exists c, string_index p (Z.of_nat (String.length p) - 1) s = Ok c s.
Proof.
  split.
  - unfold Route. by erewrite bind_Panicked_index.
  - intros p Hp. destruct (string_index_last s p Hp) as (c & Hc & _).
    by exists c.
Qed.

(** What a derivation leaves behind: a new router over an array that did
    not exist before, and the receiver as it was. *)
Lemma derived_summary s s' m e sl0 mws pre sl l pre' :
  muxes s !! m = Some (mkMux e sl0 pre) ->
  slice_view s sl0 = Some mws ->
  muxes s' = muxes s ++ [mkMux e sl pre'] ->
  arrays s `prefix_of` arrays s' ->
  slice_view s' sl = Some mws ->
  s_ptr sl = Some l -> length (arrays s) <= l ->
  muxes s !! length (muxes s) = None /\
  mux_view s' (length (muxes s)) = Some (e, mws, pre') /\
  (exists l, mux_array s' (length (muxes s)) = Some l /\
             arrays s !! l = None) /\
  mux_view s' m = Some (e, mws, pre).
Proof.
  intros Hm Hv Hmu Hpre Hv' Hl Hge. split_and!.
  - by apply lookup_ge_None_2.
  - apply (mux_view_intro _ _ _ sl); [|done]. rewrite Hmu. apply lookup_snoc.
  - exists l. split; [|by apply lookup_ge_None_2].
    unfold mux_array. by rewrite Hmu, lookup_snoc.
  - apply (mux_view_intro _ _ _ sl0).
    + rewrite Hmu. by apply lookup_app_l_Some.
    + by apply (slice_view_prefix s).
Qed.

(** C10.  With a nil callback, [Group] and (for a non-empty pattern)
    [Route] return a new router without calling anything: it has the
    receiver's engine, a copy of its middleware list in an array of its
    own and, for [Route], the prefix extended by the normalized pattern. *)
Theorem Group_Route_tolerate_nil_callback
    (s : Store) (m e : loc) (mws : list Middleware) (pre p : string) :
  mux_view s m = Some (e, mws, pre) ->
  p <> "" ->
  let d := length (muxes s) in
  (exists s',
     Group m None s = Ok d s' /\
     muxes s !! d = None /\
     mux_view s' d = Some (e, mws, pre) /\
     (exists l, mux_array s' d = Some l /\ arrays s !! l = None) /\
     mux_view s' m = Some (e, mws, pre) /\
     engines s' = engines s) /\
  (exists s',
     Route m p None s = Ok d s' /\
     muxes s !! d = None /\
     mux_view s' d = Some (e, mws, pre +:+ with_trailing_slash p) /\
     (exists l, mux_array s' d = Some l /\ arrays s !! l = None) /\
     mux_view s' m = Some (e, mws, pre) /\
     engines s' = engines s).
Proof.
  intros Hview Hp d.
  destruct (mux_view_inv _ _ _ _ _ Hview) as (sl0 & Hm & Hv).
  split.
  - destruct (Group_nil s m e sl0 pre mws Hm Hv)
      as (sl & l & s' & HG & Hmu & Hen & Hpre & Hv' & Hl & Hge).
    destruct (derived_summary s s' m e sl0 mws pre sl l pre)
      as (? & ? & ? & ?); try done.
    by exists s'.
  - destruct (Route_nil s m e sl0 pre mws p Hm Hv Hp)
      as (sl & l & s' & HG & Hmu & Hen & Hpre & Hv' & Hl & Hge).
    destruct (derived_summary s s' m e sl0 mws pre sl l
                (pre +:+ with_trailing_slash p))
      as (? & ? & ? & ?); try done.
    by exists s'.
Qed.

End MuxTheorems.

Lemma Group_Route_tolerate_nil_callback_witness :
  mux_view root_store 0 = Some (0, [], "") /\
  "/v1" <> "" /\
  (exists s',
     Group 0 None root_store = Ok 1 s' /\
     muxes root_store !! 1 = None /\
     mux_view s' 1 = Some (0, [], "") /\
     (exists l, mux_array s' 1 = Some l /\ arrays root_store !! l = None) /\
     mux_view s' 0 = Some (0, [], "") /\
     engines s' = engines root_store) /\
  (exists s',
     Route 0 "/v1" None root_store = Ok 1 s' /\
     muxes root_store !! 1 = None /\
     mux_view s' 1 = Some (0, [], "/v1/") /\
     (exists l, mux_array s' 1 = Some l /\ arrays root_store !! l = None) /\
     mux_view s' 0 = Some (0, [], "") /\
     engines s' = engines root_store).
Proof.
  split; [reflexivity|]. split; [discriminate|].
  apply (Group_Route_tolerate_nil_callback root_store 0 0 [] "" "/v1");
    [reflexivity|discriminate].
Defined.

Lemma Route_empty_pattern_panics_witness :
  Route 0 "" None root_store = Panicked IndexOutOfRange /\
  "/v1" <> "" /\
  exists c,
    string_index "/v1" (Z.of_nat (String.length "/v1") - 1) root_store =
      Ok c root_store.
Proof.
  split; [apply (Route_empty_pattern_panics 0 None root_store)|].
  split; [discriminate|].
  apply (proj2 (Route_empty_pattern_panics 0 None root_store) "/v1").
  discriminate.
Defined.

Section PrefixTheorems.
Context `{Environment}.

(** C5, as the code has it.  For non-empty patterns, [Route] appends a
    path separator to a pattern that does not end with one and sets the
    derived router's prefix to the receiver's prefix followed by that
    pattern, so a handler registered two levels down is registered under
    both normalized patterns in sequence.  Nothing is removed where a
    prefix ending in a separator meets a pattern starting with one. *)
Theorem Route_nested_prefix
    (s : Store) (m e : loc) (mws : list Middleware) (pre p1 p2 pat : string)
    (eng : ChiMux) (h k : Handler) :
  mux_view s m = Some (e, mws, pre) ->
  engines s !! e = Some eng ->
  compose mws h = Some k ->
  p1 <> "" -> p2 <> "" ->
  let d1 := length (muxes s) in
  let pre1 := pre +:+ with_trailing_slash p1 in
  let pre2 := pre1 +:+ with_trailing_slash p2 in
  (exists s',
     Route m p1
       (Some (fun im =>
          Route im p2 (Some (fun im2 => Handle im2 pat h));; mret tt)) s =
       Ok d1 s' /\
     mux_view s' d1 = Some (e, mws, pre1) /\
     mux_view s' (S d1) = Some (e, mws, pre2) /\
     engines s' !! e =
       Some (with_route eng (mkRoute None (pre2 +:+ pat) (adaptor k)))) /\
  with_trailing_slash "/v1" = "/v1/" /\
  with_trailing_slash "/v1/" = "/v1/" /\
  with_trailing_slash "api" = "api/" /\
  with_trailing_slash "api/" = "api/" /\
  with_trailing_slash "/api" = "/api/".
Proof.
  intros Hview He Hk Hp1 Hp2 d1 pre1 pre2.
  split; [|by repeat split].
  destruct (mux_view_inv _ _ _ _ _ Hview) as (sl0 & Hm & Hv).
  destruct (Route_nil s m e sl0 pre mws p1 Hm Hv Hp1)
    as (sl1 & l1 & s1 & HR1 & Hmu1 & Hen1 & Hpre1 & Hv1 & _).
  assert (Hd1 : muxes s1 !! d1 = Some (mkMux e sl1 pre1))
    by (rewrite Hmu1; apply lookup_snoc).
  destruct (Route_nil s1 d1 e sl1 pre1 mws p2 Hd1 Hv1 Hp2)
    as (sl2 & l2 & s2 & HR2 & Hmu2 & Hen2 & Hpre2 & Hv2 & _).
  assert (Hlen1 : length (muxes s1) = S d1)
    by (rewrite Hmu1, length_app; simpl; lia).
  rewrite Hlen1 in HR2.
  assert (Hd2 : muxes s2 !! S d1 = Some (mkMux e sl2 pre2))
    by (rewrite Hmu2, <- Hlen1; apply lookup_snoc).
  assert (He2 : engines s2 !! e = Some eng) by by rewrite Hen2, Hen1.
  destruct (Handle_view s2 (S d1) e sl2 pre2 mws eng pat h k Hd2 Hv2 He2 Hk)
    as (s3 & HH & Hmu3 & Hpre3 & Hen3).
  exists s3. split_and!.
  - rewrite Route_callback. erewrite bind_Ok; [|exact HR1].
    erewrite bind_Ok; [done|].
    erewrite bind_Ok; [done|].
    rewrite Route_callback. erewrite bind_Ok; [|exact HR2].
    erewrite bind_Ok; [done|]. exact HH.
  - apply (mux_view_intro _ _ _ sl1).
    + rewrite Hmu3, Hmu2. by apply lookup_app_l_Some.
    + apply (slice_view_prefix s1); [done|]. by etrans.
  - apply (mux_view_intro _ _ _ sl2); [by rewrite Hmu3|].
    by apply (slice_view_prefix s2).
  - rewrite Hen3. apply list_lookup_insert_eq. by eapply lookup_lt_Some.
Qed.

End PrefixTheorems.

Lemma Route_nested_prefix_witness :
  mux_view root_store 0 = Some (0, [], "") /\
  exists s',
    Route 0 "/v1"
      (Some (fun im =>
         Route im "api/"
           (Some (fun im2 => Handle im2 "users" (answering "users")));;
         mret tt)) root_store = Ok 1 s' /\
    mux_view s' 1 = Some (0, [], "/v1/") /\
    mux_view s' 2 = Some (0, [], "/v1/api/") /\
    engines s' !! 0 =
      Some (with_route (mkChi [] None None)
              (mkRoute None "/v1/api/users" (adaptor (answering "users")))).
Proof.
  split; [reflexivity|].
  apply (Route_nested_prefix root_store 0 0 [] "" "/v1" "api/" "users"
           (mkChi [] None None) (answering "users") (answering "users"));
    try reflexivity; discriminate.
Defined.

(** C5, as stated, fails: nested under ["/v1"], the pattern ["/api"] gives
    the registration prefix ["/v1//api/"], and the empty pattern gives no
    router at all. *)
Lemma Route_nested_prefix_counterexample :
  (exists s',
     Route 0 "/v1"
       (Some (fun im =>
          Route im "/api"
            (Some (fun im2 => Handle im2 "users" (answering "users")));;
          mret tt)) root_store = Ok 1 s' /\
     mux_view s' 2 = Some (0, [], "/v1//api/") /\
     (fun e => route_pattern <$> chi_routes e) <$> engines s' !! 0 =
       Some ["/v1//api/users"]) /\
  "/v1//api/" <> "/v1/api/" /\
  Route 0 "" None root_store = Panicked IndexOutOfRange.
Proof.
  split; [|split; [discriminate|reflexivity]].
  eexists. split; [vm_compute; reflexivity|]. split; reflexivity.
Qed.

Example NewMux_root : NewMux empty_store = Ok 0 root_store.
Proof. reflexivity. Qed.

Section IsolationTheorems.
Context `{Environment}.

Lemma ServeHTTP_Ok s m e sl pre eng w r :
  muxes s !! m = Some (mkMux e sl pre) ->
  engines s !! e = Some eng ->
  ServeHTTP m w r s = Ok (chi_dispatch eng w r) s.
Proof.
  intros Hm He. unfold ServeHTTP.
  erewrite bind_Ok; [|by apply load_mux_Ok].
  unfold chi_ServeHTTP. simpl.
  erewrite bind_Ok; [|by apply load_engine_Ok]. done.
Qed.

(** C4.  The router derived by [With] keeps its middleware list in an
    array of its own.  A later [Use] on the original router changes
    neither that list nor the engine, so handlers registered through the
    derived router, before or after, are wrapped by the list it was
    derived with and answer as they did. *)
Theorem With_copy_isolated_from_Use
    (s : Store) (m e : loc) (mws xs ys : list Middleware) (pre pat : string)
    (eng : ChiMux) (x y : slice) (h k : Handler) :
  mux_view s m = Some (e, mws, pre) ->
  engines s !! e = Some eng ->
  slice_view s x = Some xs ->
  slice_view s y = Some ys ->
  compose (mws ++ xs) h = Some k ->
  exists d s1 s2 s3,
    With m x s = Ok d s1 /\
    Handle d pat h s1 = Ok tt s2 /\
    Use m y s2 = Ok tt s3 /\
    d <> m /\
    mux_view s1 d = Some (e, mws ++ xs, pre) /\
    (exists l, mux_array s1 d = Some l /\ arrays s !! l = None /\
               mux_array s3 d = Some l /\ mux_array s3 m <> Some l) /\
    mux_view s3 d = Some (e, mws ++ xs, pre) /\
    mux_view s3 m = Some (e, mws ++ ys, pre) /\
    engines s2 !! e =
      Some (with_route eng (mkRoute None (pre +:+ pat) (adaptor k))) /\
    engines s3 = engines s2 /\
    forall w r, exists out,
      ServeHTTP d w r s2 = Ok out s2 /\ ServeHTTP d w r s3 = Ok out s3.
Proof.
  intros Hview He Hx Hy Hk.
  destruct (mux_view_inv _ _ _ _ _ Hview) as (sl0 & Hm & Hv).
  pose proof (lookup_lt_Some _ _ _ Hm) as Hmlt.
  (* d := m.With(x) *)
  destruct (With_view s m e sl0 pre mws x xs Hm Hv Hx)
    as (sl & l & s1 & HW & Hmu1 & Hen1 & Hpre1 & Hv1 & Hl & Hge).
  set (d := length (muxes s)) in *.
  assert (Hd1 : muxes s1 !! d = Some (mkMux e sl pre))
    by (rewrite Hmu1; apply lookup_snoc).
  (* d.Handle(pat, h) *)
  assert (He1 : engines s1 !! e = Some eng) by by rewrite Hen1.
  destruct (Handle_view s1 d e sl pre (mws ++ xs) eng pat h k Hd1 Hv1 He1 Hk)
    as (s2 & HH & Hmu2 & Hpre2 & Hen2).
  assert (Hpre02 : arrays s `prefix_of` arrays s2) by by etrans.
  (* m.Use(y) *)
  assert (Hm2 : muxes s2 !! m = Some (mkMux e sl0 pre))
    by (rewrite Hmu2, Hmu1; by apply lookup_app_l_Some).
  assert (Hv02 : slice_view s2 sl0 = Some mws)
    by by apply (slice_view_prefix s).
  assert (Hy2 : slice_view s2 y = Some ys) by by apply (slice_view_prefix s).
  destruct (Use_view s2 m e sl0 pre mws y ys Hm2 Hv02 Hy2)
    as (slm & s3 & HU & Hmu3 & Hen3 & Hvm3 & Hframe & Hptr).
  (* the derived router's array is not the original's *)
  assert (Hvd2 : slice_view s2 sl = Some (mws ++ xs))
    by by apply (slice_view_prefix s1).
  assert (Hl2 : l < length (arrays s2))
    by by apply (slice_view_ptr_lt s2 sl (mws ++ xs)).
  assert (Hne : s_ptr sl0 <> Some l).
  { intros Hp. pose proof (slice_view_ptr_lt _ _ _ _ Hv Hp). lia. }
  assert (Hnem : s_ptr slm <> Some l).
  { destruct Hptr as [-> | ->]; [done|]. intros [= ?]. lia. }
  assert (Hdm : d <> m) by (unfold d; lia).
  assert (Hd3 : muxes s3 !! d = Some (mkMux e sl pre)).
  { rewrite Hmu3, list_lookup_insert_ne by done. by rewrite Hmu2. }
  assert (Hvd3 : slice_view s3 sl = Some (mws ++ xs)).
  { apply (slice_view_stable s2); [done|].
    intros l' arr. rewrite Hl. intros [= <-] Harr. exists arr.
    split_and!; [|done..]. by rewrite Hframe. }
  assert (Hm3 : muxes s3 !! m = Some (mkMux e slm pre)).
  { rewrite Hmu3. apply list_lookup_insert_eq. by eapply lookup_lt_Some. }
  assert (He2 : engines s2 !! e =
    Some (with_route eng (mkRoute None (pre +:+ pat) (adaptor k)))).
  { rewrite Hen2. apply list_lookup_insert_eq. by eapply lookup_lt_Some. }
  assert (Harr : exists l, mux_array s1 d = Some l /\ arrays s !! l = None /\
                           mux_array s3 d = Some l /\ mux_array s3 m <> Some l).
  { exists l. unfold mux_array. rewrite Hd1, Hd3, Hm3. simpl.
    split_and!; [done|by apply lookup_ge_None_2|done..]. }
  assert (Hserve : forall w r, exists out,
            ServeHTTP d w r s2 = Ok out s2 /\ ServeHTTP d w r s3 = Ok out s3).
  { intros w r. eexists. split.
    - eapply ServeHTTP_Ok; [by rewrite Hmu2|done].
    - eapply ServeHTTP_Ok; [done|]. by rewrite Hen3. }
  exists d, s1, s2, s3.
  split_and!; try done; by eapply mux_view_intro.
Qed.

End IsolationTheorems.

Lemma With_copy_isolated_from_Use_witness :
  let mws := [Some (recording "a")] in
  let xs := [Some (recording "x")] in
  let ys := [Some (recording "y")] in
  let eng := mkChi [] None None in
  let h := answering "h" in
  let k := recording "a" (recording "x" h) in
  mux_view spare_store 0 = Some (0, mws, "/api/") /\
  engines spare_store !! 0 = Some eng /\
  slice_view spare_store (Slice (Some 1) 1 1) = Some xs /\
  slice_view spare_store (Slice (Some 2) 1 1) = Some ys /\
  compose (mws ++ xs) h = Some k /\
  exists d s1 s2 s3,
    With 0 (Slice (Some 1) 1 1) spare_store = Ok d s1 /\
    Handle d "users" h s1 = Ok tt s2 /\
    Use 0 (Slice (Some 2) 1 1) s2 = Ok tt s3 /\
    d <> 0 /\
    mux_view s1 d = Some (0, mws ++ xs, "/api/") /\
    (exists l, mux_array s1 d = Some l /\ arrays spare_store !! l = None /\
               mux_array s3 d = Some l /\ mux_array s3 0 <> Some l) /\
    mux_view s3 d = Some (0, mws ++ xs, "/api/") /\
    mux_view s3 0 = Some (0, mws ++ ys, "/api/") /\
    engines s2 !! 0 =
      Some (with_route eng (mkRoute None ("/api/" +:+ "users") (adaptor k))) /\
    engines s3 = engines s2 /\
    forall w r, exists out,
      ServeHTTP d w r s2 = Ok out s2 /\ ServeHTTP d w r s3 = Ok out s3.
Proof.
  intros mws xs ys eng h k. repeat (split; [reflexivity|]).
  apply (With_copy_isolated_from_Use spare_store 0 0 mws xs ys "/api/"
           "users" eng (Slice (Some 1) 1 1) (Slice (Some 2) 1 1) h k);
    reflexivity.
Defined.

Example NewMux_Get_routed :
  (m ← NewMux; Get m "/a" (answering "a")) empty_store = Ok tt routed_store.
Proof. reflexivity. Qed.

Section HookTheorems.
Context `{Environment}.

(** C2.  [MethodNotAllowed] installs its handler at the engine's not-found
    hook, the one [NotFound] uses: after [NotFound(f)] and
    [MethodNotAllowed(g)] a request for an unmatched path is answered by
    [g], and a request for a matched path with an unmatched method is
    answered by whatever the engine had for that case before. *)
Theorem MethodNotAllowed_installs_not_found_hook
    (s : Store) (m : loc) (mo : Mux) (eng : ChiMux) (f g : HandlerFunc) :
  muxes s !! m = Some mo ->
  engines s !! mux_chi mo = Some eng ->
  exists s1 s2,
    NotFound m f s = Ok tt s1 /\
    MethodNotAllowed m g s1 = Ok tt s2 /\
    engines s2 !! mux_chi mo =
      Some (mkChi (chi_routes eng) (Some (adaptor g))
              (chi_methodNotAllowedHandler eng)) /\
    (forall w r,
       List.filter (fun rt => route_match (route_pattern rt) (r_Path r))
         (chi_routes eng) = [] ->
       ServeHTTP m w r s2 = Ok (adaptor g w r) s2) /\
    (forall w r,
       List.filter (fun rt => route_match (route_pattern rt) (r_Path r))
         (chi_routes eng) <> [] ->
       List.find (route_allows (r_Method r))
         (List.filter (fun rt => route_match (route_pattern rt) (r_Path r))
            (chi_routes eng)) = None ->
       ServeHTTP m w r s2 = Ok (chi_MethodNotAllowedHandler eng w r) s2).
Proof.
  intros Hm He. destruct mo as [e sl pre]. simpl in *.
  pose proof (lookup_lt_Some _ _ _ He) as Helt.
  eexists _, _. split_and!.
  - unfold NotFound. erewrite bind_Ok; [|by apply load_mux_Ok]. simpl.
    unfold chi_NotFound. erewrite bind_Ok; [|by apply load_engine_Ok].
    by eapply store_engine_Ok.
  - unfold MethodNotAllowed. erewrite bind_Ok; [|by apply load_mux_Ok]. simpl.
    unfold chi_NotFound.
    erewrite bind_Ok;
      [|apply load_engine_Ok; simpl; by apply list_lookup_insert_eq].
    eapply store_engine_Ok. simpl. by apply list_lookup_insert_eq.
  - simpl. apply list_lookup_insert_eq. by rewrite length_insert.
  - intros w r Hnone. erewrite ServeHTTP_Ok; [|done|].
    2:{ simpl. apply list_lookup_insert_eq. by rewrite length_insert. }
    unfold chi_dispatch. cbn [chi_routes]. by rewrite Hnone.
  - intros w r Hsome Hfind. erewrite ServeHTTP_Ok; [|done|].
    2:{ simpl. apply list_lookup_insert_eq. by rewrite length_insert. }
    unfold chi_dispatch. cbn [chi_routes]. revert Hsome Hfind.
    destruct (List.filter _ _) as [|rt rts]; [done|].
    intros _ Hfind. by rewrite Hfind.
Qed.

End HookTheorems.

Lemma MethodNotAllowed_installs_not_found_hook_witness :
  let f := answering "f" in
  let g := answering "g" in
  muxes routed_store !! 0 = Some (mkMux 0 (Slice (Some 0) 0 0) "") /\
  exists s2,
    (NotFound 0 f;; MethodNotAllowed 0 g) routed_store = Ok tt s2 /\
    ServeHTTP 0 [] {| r_Method := "GET"; r_Path := "/missing" |} s2 =
      Ok [Write "g"] s2 /\
    ServeHTTP 0 [] {| r_Method := "POST"; r_Path := "/a" |} s2 =
      Ok [WriteHeader 405] s2.
Proof.
  intros f g. split; [reflexivity|].
  destruct (MethodNotAllowed_installs_not_found_hook routed_store 0
              (mkMux 0 (Slice (Some 0) 0 0) "")
              (mkChi [mkRoute (Some "GET") "/a" (adaptor (answering "a"))]
                 None None) f g eq_refl eq_refl)
    as (s1 & s2 & H1 & H2 & _ & Hpath & Hmeth).
  exists s2. split_and!.
  - erewrite bind_Ok; [|exact H1]. exact H2.
  - apply (Hpath [] {| r_Method := "GET"; r_Path := "/missing" |}).
    reflexivity.
  - apply (Hmeth [] {| r_Method := "POST"; r_Path := "/a" |});
      [discriminate|reflexivity].
Defined.

(** * Further properties of the handlers *)



Lemma HasPrefix_split (s p : string) :
  HasPrefix s p = true -> s = p +:+ string_drop (String.length p) s.
Proof.
  revert s. induction p as [|a p IH]; intros s; simpl.
  - by destruct s.
  - destruct s as [|b s]; [done|].
    destruct (Ascii.eqb_spec a b) as [->|]; [|done].
    intros Hp.
    change (String b s = String b (p +:+ string_drop (String.length p) s)).
    f_equal. by apply IH.
Qed.

Lemma length_append (a b : string) :
  String.length (a +:+ b) = String.length a + String.length b.
Proof. induction a as [|c a IH]; simpl; [done|]. by rewrite IH. Qed.




(** What [StripPrefix] does, by whether the path has the prefix. *)
Lemma StripPrefix_cases (prefix : string) (h : Handler) w r :
  StripPrefix prefix h w r =
  if HasPrefix (r_Path r) prefix
  then h w (with_path r (string_drop (String.length prefix) (r_Path r)))
  else (http_NotFound w r, None).
Proof.
  unfold StripPrefix, http_StripPrefix.
  destruct (String.eqb_spec prefix "") as [->|Hne].
  - simpl. destruct r as [meth path]. unfold with_path. simpl.
    replace (string_drop 0 path) with path by by destruct path.
    by destruct (h w _).
  - unfold TrimPrefix.
    destruct (HasPrefix (r_Path r) prefix) eqn:Hp.
    + pose proof (HasPrefix_split _ _ Hp) as Hs.
      assert (String.length
                (string_drop (String.length prefix) (r_Path r)) <
              String.length (r_Path r)) as Hlt.
      { rewrite Hs at 2. rewrite length_append.
        destruct prefix; [done|]. simpl. lia. }
      rewrite (proj2 (Nat.ltb_lt _ _) Hlt). by destruct (h w _).
    + by rewrite Nat.ltb_irrefl.
Qed.

(** X1.  The adaptor keeps every call the handler made on the writer and
    appends at most two calls, each an [http.Error] carrying the message
    of the failure the handler returned; on success it appends none. *)
Theorem adaptor_appends_only (h : Handler) (w : ResponseWriter) (r : Request) :
  exists tail,
    adaptor h w r = fst (h w r) ++ tail /\
    length tail <= 2 /\
    (snd (h w r) = None -> tail = []) /\
    Forall (fun c => exists err code,
              snd (h w r) = Some err /\ c = HttpError (error_Error err) code)
      tail.
Proof.
  unfold adaptor. destruct (h w r) as [w1 [err|]]; simpl.
  - destruct (error_Status err) as [st|]; unfold http_Error.
    + exists [HttpError (error_Error err) st; HttpError (error_Error err) 500].
      rewrite <- app_assoc. split_and!; [done|simpl; lia|done|].
      repeat constructor; by eexists _, _.
    + exists [HttpError (error_Error err) 500].
      split_and!; [done|simpl; lia|done|].
      repeat constructor; by eexists _, _.
  - exists []. rewrite app_nil_r.
    split_and!; [done|simpl; lia|done|constructor].
Qed.

(** A handler that reports no failure is, behind the adaptor, just what it
    writes. *)
Lemma adaptor_infallible (h : Handler) (w : ResponseWriter) (r : Request) :
  snd (h w r) = None -> adaptor h w r = fst (h w r).
Proof. unfold adaptor. destruct (h w r) as [w1 e]. simpl. by intros ->. Qed.



(** X3.  On a path that does not start with the prefix, [StripPrefix] never
    runs the inner handler: it answers with [http.NotFound] and reports no
    failure, so the adaptor adds nothing to that single 404 answer. *)
Theorem StripPrefix_not_found
    (prefix : string) (h : Handler) (w : ResponseWriter) (r : Request) :
  (forall rest, r_Path r <> prefix +:+ rest) ->
  StripPrefix prefix h w r = (w ++ [HttpError "404 page not found" 404], None) /\
  adaptor (StripPrefix prefix h) w r = w ++ [HttpError "404 page not found" 404].
Proof.
  intros Hno.
  assert (Hc : StripPrefix prefix h w r =
               (w ++ [HttpError "404 page not found" 404], None)).
  { rewrite StripPrefix_cases.
    destruct (HasPrefix (r_Path r) prefix) eqn:Hp; [|done].
    destruct (Hno _ (HasPrefix_split _ _ Hp)). }
  split; [done|]. unfold adaptor. by rewrite Hc.
Qed.

Lemma StripPrefix_not_found_witness :
  let r := {| r_Method := "GET"; r_Path := "/other" |} in
  (forall rest, r_Path r <> "/static" +:+ rest) /\
  StripPrefix "/static" (answering "file") [] r =
    ([HttpError "404 page not found" 404], None) /\
  adaptor (StripPrefix "/static" (answering "file")) [] r =
    [HttpError "404 page not found" 404].
Proof.
  intros r.
  assert (Hno : forall rest, r_Path r <> "/static" +:+ rest)
    by (intros rest; discriminate).
  split; [exact Hno|].
  apply (StripPrefix_not_found "/static" (answering "file") [] r Hno).
Defined.


(** * Further properties of chains *)

Lemma compose_None (ms : list Middleware) (h : Handler) :
  compose ms h = None <-> None ∈ ms.
Proof.
  induction ms as [|m ms IH]; simpl.
  - split; [done|]. by intros ?%elem_of_nil.
  - rewrite elem_of_cons.
    destruct (compose ms h) as [k|] eqn:Hk.
    + destruct m as [f|].
      * split; [done|]. intros [?|Hin]; [done|]. by apply IH in Hin.
      * split; [by left|done].
    + split; [|done]. intros _. right. by apply IH.
Qed.

Lemma compose_app (xs ys : list Middleware) (h : Handler) :
  compose (xs ++ ys) h =
  match compose ys h with
  | Some k => compose xs k
  | None => None
  end.
Proof.
  induction xs as [|m xs IH]; simpl.
  - by destruct (compose ys h).
  - rewrite IH. by destruct (compose ys h).
Qed.

Section MoreChainTheorems.
Context `{Environment}.

(** X5.  [Then] panics with a nil dereference exactly when the chain holds
    a nil middleware; otherwise it returns the composed handler.  Either
    way it leaves the store as it found it, which is what makes a chain
    reusable across calls. *)
Theorem Then_panics_iff_nil_middleware
    (s : Store) (c : Chain) (ms : list Middleware) (h : Handler) :
  slice_view s (chain_middlewares c) = Some ms ->
  (None ∈ ms <-> Then c h s = Panicked NilDereference) /\
  (None ∉ ms <-> exists k, Then c h s = Ok k s) /\
  (forall k s', Then c h s = Ok k s' -> s' = s /\ compose ms h = Some k).
Proof.
  intros Hv. rewrite (Then_view _ _ _ _ Hv).
  pose proof (compose_None ms h) as Hnone.
  destruct (compose ms h) as [k|].
  - split_and!.
    + split; [|done]. intros Hin. by apply Hnone in Hin.
    + split; [by exists k|]. intros _ Hin. by apply Hnone in Hin.
    + by intros k' s' [= -> ->].
  - split_and!.
    + split; [done|]. intros _. by apply Hnone.
    + split; [|by intros [k ?]]. intros Hnin. destruct Hnin. by apply Hnone.
    + done.
Qed.

(** X6.  Composing through an appended chain is composing in two steps:
    [c.Append(more...).Then(h)] is the handler [c.Then(k)] where [k] is
    what the chain over [more] alone makes of [h]. *)
Theorem Append_Then_composes
    (s : Store) (c : Chain) (more : slice) (xs ys : list Middleware)
    (h k : Handler) :
  slice_view s (chain_middlewares c) = Some xs ->
  slice_view s more = Some ys ->
  Then (mkChain more) h s = Ok k s ->
  exists c2 s',
    Append c more s = Ok c2 s' /\
    Then c2 h s' = Then c k s'.
Proof.
  intros Hxs Hys Hk.
  rewrite (Then_view s (mkChain more) ys h Hys) in Hk.
  destruct (compose ys h) as [k'|] eqn:Hc; [|done]. injection Hk as ->.
  eexists _, _. split; [by apply Append_Ok|].
  set (s' := set_arrays s (arrays s ++ [xs ++ ys])).
  assert (Hpre : arrays s `prefix_of` arrays s') by by eexists.
  rewrite (Then_view s' _ (xs ++ ys)), (Then_view s' c xs).
  - by rewrite compose_app, Hc.
  - by apply (slice_view_prefix s).
  - unfold slice_view. simpl. rewrite lookup_snoc, length_app, Nat.leb_refl.
    simpl. by rewrite <- length_app, take_ge.
Qed.

End MoreChainTheorems.

Lemma Then_panics_iff_nil_middleware_witness :
  let s := mkStore [[Some (recording "m1"); None]] [] [] in
  slice_view s two_slice = Some [Some (recording "m1"); None] /\
  Then (mkChain two_slice) (answering "h") s = Panicked NilDereference.
Proof.
  intros s. split; [reflexivity|].
  apply (proj1 (Then_panics_iff_nil_middleware s (mkChain two_slice)
                  [Some (recording "m1"); None] (answering "h") eq_refl)).
  apply (list_elem_of_lookup_2 _ 1). reflexivity.
Defined.

Lemma Append_Then_composes_witness :
  let c := mkChain two_slice in
  let k := recording "m1" (recording "m2" (answering "h")) in
  slice_view two_store two_slice =
    Some [Some (recording "m1"); Some (recording "m2")] /\
  Then c (answering "h") two_store = Ok k two_store /\
  exists c2 s',
    Append c two_slice two_store = Ok c2 s' /\
    Then c2 (answering "h") s' = Then c k s'.
Proof.
  intros c k. split; [reflexivity|]. split; [reflexivity|].
  apply (Append_Then_composes two_store c two_slice
           [Some (recording "m1"); Some (recording "m2")]
           [Some (recording "m1"); Some (recording "m2")]
           (answering "h") k); reflexivity.
Defined.

(** * Further properties of routers *)

Section DispatchProperties.
Context `{Environment}.






(** X7.  [NewMux] allocates a router with its own engine, no middleware
    and the empty prefix, and touches nothing that existed; until a route
    is registered it answers every request with [http.NotFound]. *)
Theorem NewMux_fresh_router (s : Store) :
  exists s',
    NewMux s = Ok (length (muxes s)) s' /\
    mux_view s' (length (muxes s)) = Some (length (engines s), [], "") /\
    arrays s `prefix_of` arrays s' /\
    muxes s `prefix_of` muxes s' /\
    engines s `prefix_of` engines s' /\
    forall w r,
      ServeHTTP (length (muxes s)) w r s' =
        Ok (w ++ [HttpError "404 page not found" 404]) s'.
Proof.
  eexists. split; [reflexivity|]. simpl.
  assert (Hm : forall a, (muxes s ++ [a]) !! length (muxes s) = Some a)
    by (intros a; apply lookup_snoc).
  split_and!; try by eexists.
  - unfold mux_view. simpl. rewrite Hm. unfold slice_view. simpl.
    by rewrite lookup_snoc.
  - intros w r.
    rewrite (ServeHTTP_Ok _ (length (muxes s)) (length (engines s))
               (Slice (Some (length (arrays s))) 0 0) ""
               (mkChi [] None None) w r);
      [done|apply Hm|simpl; apply lookup_snoc].
Qed.



End DispatchProperties.



Section ScopeTheorems.
Context `{Environment}.

(** X10.  [Use] reaches the routes registered after it and no others: a
    handler registered before stays wrapped by the list the router had
    then, a handler registered after is wrapped by the extended list, and
    [Use] itself registers nothing. *)
Theorem Use_affects_only_later_routes
    (s : Store) (m e : loc) (mws ys : list Middleware) (pre p1 p2 : string)
    (eng : ChiMux) (y : slice) (h1 h2 k1 k2 : Handler) :
  mux_view s m = Some (e, mws, pre) ->
  engines s !! e = Some eng ->
  slice_view s y = Some ys ->
  compose mws h1 = Some k1 ->
  compose (mws ++ ys) h2 = Some k2 ->
  exists s1 s2 s3,
    Handle m p1 h1 s = Ok tt s1 /\
    Use m y s1 = Ok tt s2 /\
    Handle m p2 h2 s2 = Ok tt s3 /\
    engines s2 = engines s1 /\
    mux_view s3 m = Some (e, mws ++ ys, pre) /\
    engines s3 !! e =
      Some (with_route
              (with_route eng (mkRoute None (pre +:+ p1) (adaptor k1)))
              (mkRoute None (pre +:+ p2) (adaptor k2))).
Proof.
  intros Hview He Hy Hk1 Hk2.
  destruct (mux_view_inv _ _ _ _ _ Hview) as (sl0 & Hm & Hv).
  pose proof (lookup_lt_Some _ _ _ He) as Helt.
  destruct (Handle_view s m e sl0 pre mws eng p1 h1 k1 Hm Hv He Hk1)
    as (s1 & HH1 & Hmu1 & Hpre1 & Hen1).
  assert (Hm1 : muxes s1 !! m = Some (mkMux e sl0 pre)) by by rewrite Hmu1.
  assert (Hv1 : slice_view s1 sl0 = Some mws) by by apply (slice_view_prefix s).
  assert (Hy1 : slice_view s1 y = Some ys) by by apply (slice_view_prefix s).
  destruct (Use_view s1 m e sl0 pre mws y ys Hm1 Hv1 Hy1)
    as (slm & s2 & HU & Hmu2 & Hen2 & Hv2 & _).
  assert (Hm2 : muxes s2 !! m = Some (mkMux e slm pre)).
  { rewrite Hmu2. apply list_lookup_insert_eq. by eapply lookup_lt_Some. }
  assert (He2 : engines s2 !! e =
    Some (with_route eng (mkRoute None (pre +:+ p1) (adaptor k1)))).
  { rewrite Hen2, Hen1. by apply list_lookup_insert_eq. }
  destruct (Handle_view s2 m e slm pre (mws ++ ys) _ p2 h2 k2 Hm2 Hv2 He2 Hk2)
    as (s3 & HH2 & Hmu3 & Hpre3 & Hen3).
  exists s1, s2, s3. split_and!; try done.
  - apply (mux_view_intro _ _ _ slm); [by rewrite Hmu3|].
    by apply (slice_view_prefix s2).
  - rewrite Hen3. apply list_lookup_insert_eq.
    rewrite Hen2, Hen1. by rewrite length_insert.
Qed.

(** X11.  Derivations stack: [m.With(x...).With(y...)] has the middleware
    of [m], then [x], then [y], with [m]'s engine and prefix, and neither
    [m] nor the intermediate router is changed. *)
Theorem With_With_accumulates
    (s : Store) (m e : loc) (mws xs ys : list Middleware) (pre : string)
    (x y : slice) :
  mux_view s m = Some (e, mws, pre) ->
  slice_view s x = Some xs ->
  slice_view s y = Some ys ->
  exists s1 s2,
    With m x s = Ok (length (muxes s)) s1 /\
    With (length (muxes s)) y s1 = Ok (S (length (muxes s))) s2 /\
    mux_view s2 (S (length (muxes s))) = Some (e, (mws ++ xs) ++ ys, pre) /\
    mux_view s2 (length (muxes s)) = Some (e, mws ++ xs, pre) /\
    mux_view s2 m = Some (e, mws, pre) /\
    engines s2 = engines s.
Proof.
  intros Hview Hx Hy.
  destruct (mux_view_inv _ _ _ _ _ Hview) as (sl0 & Hm & Hv).
  destruct (With_view s m e sl0 pre mws x xs Hm Hv Hx)
    as (sl1 & l1 & s1 & HW1 & Hmu1 & Hen1 & Hpre1 & Hv1 & _).
  set (d := length (muxes s)) in *.
  assert (Hd1 : muxes s1 !! d = Some (mkMux e sl1 pre))
    by (rewrite Hmu1; apply lookup_snoc).
  assert (Hy1 : slice_view s1 y = Some ys) by by apply (slice_view_prefix s).
  destruct (With_view s1 d e sl1 pre (mws ++ xs) y ys Hd1 Hv1 Hy1)
    as (sl2 & l2 & s2 & HW2 & Hmu2 & Hen2 & Hpre2 & Hv2 & _).
  assert (Hlen1 : length (muxes s1) = S d)
    by (rewrite Hmu1, length_app; simpl; lia).
  rewrite Hlen1 in HW2.
  exists s1, s2. split_and!; try done.
  - apply (mux_view_intro _ _ _ sl2); [|done].
    rewrite Hmu2, <- Hlen1. apply lookup_snoc.
  - apply (mux_view_intro _ _ _ sl1).
    + rewrite Hmu2. by apply lookup_app_l_Some.
    + by apply (slice_view_prefix s1).
  - apply (mux_view_intro _ _ _ sl0).
    + rewrite Hmu2, Hmu1. by do 2 apply lookup_app_l_Some.
    + apply (slice_view_prefix s); [done|]. by etrans.
  - by rewrite Hen2.
Qed.

Lemma Group_callback m fn s :
  Group m (Some fn) s = (im ← Group m None; fn im;; mret im) s.
Proof.
  unfold Group, mbind, M_bind.
  by destruct (With m nil_slice s) as [im s1|].
Qed.

(** X12.  Middleware added inside a [Group] callback stays inside: after
    [m.Group(func(g) { g.Use(y...) })] the new router holds [m]'s list
    followed by [y], while [m] holds what it held before. *)
Theorem Group_scopes_Use
    (s : Store) (m e : loc) (mws ys : list Middleware) (pre : string)
    (y : slice) :
  mux_view s m = Some (e, mws, pre) ->
  slice_view s y = Some ys ->
  exists s',
    Group m (Some (fun g => Use g y)) s = Ok (length (muxes s)) s' /\
    mux_view s' (length (muxes s)) = Some (e, mws ++ ys, pre) /\
    mux_view s' m = Some (e, mws, pre) /\
    engines s' = engines s.
Proof.
  intros Hview Hy.
  destruct (mux_view_inv _ _ _ _ _ Hview) as (sl0 & Hm & Hv).
  pose proof (lookup_lt_Some _ _ _ Hm) as Hmlt.
  destruct (Group_nil s m e sl0 pre mws Hm Hv)
    as (sl & l & s1 & HG & Hmu1 & Hen1 & Hpre1 & Hv1 & Hl & Hge).
  set (d := length (muxes s)) in *.
  assert (Hd1 : muxes s1 !! d = Some (mkMux e sl pre))
    by (rewrite Hmu1; apply lookup_snoc).
  assert (Hy1 : slice_view s1 y = Some ys) by by apply (slice_view_prefix s).
  destruct (Use_view s1 d e sl pre mws y ys Hd1 Hv1 Hy1)
    as (sld & s2 & HU & Hmu2 & Hen2 & Hv2 & Hframe & _).
  exists s2. split_and!.
  - rewrite Group_callback. erewrite bind_Ok; [|exact HG].
    erewrite bind_Ok; [|exact HU]. done.
  - apply (mux_view_intro _ _ _ sld); [|done].
    rewrite Hmu2. apply list_lookup_insert_eq. by eapply lookup_lt_Some.
  - apply (mux_view_intro _ _ _ sl0).
    + rewrite Hmu2, list_lookup_insert_ne by (unfold d; lia).
      rewrite Hmu1. by apply lookup_app_l_Some.
    + assert (Hv01 : slice_view s1 sl0 = Some mws)
        by by apply (slice_view_prefix s).
      apply (slice_view_stable s1); [done|].
      intros l0 arr Hl0 Harr. exists arr. split_and!; [|done..].
      rewrite Hframe; [done|by eapply lookup_lt_Some|].
      rewrite Hl. intros [= <-].
      pose proof (slice_view_ptr_lt _ _ _ _ Hv Hl0). lia.
  - by rewrite Hen2.
Qed.


End ScopeTheorems.

Lemma Use_affects_only_later_routes_witness :
  let h := answering "h" in
  let y := Slice (Some 2) 1 1 in
  mux_view spare_store 0 = Some (0, [Some (recording "a")], "/api/") /\
  slice_view spare_store y = Some [Some (recording "y")] /\
  exists s1 s2 s3,
    Handle 0 "before" h spare_store = Ok tt s1 /\
    Use 0 y s1 = Ok tt s2 /\
    Handle 0 "after" h s2 = Ok tt s3 /\
    engines s2 = engines s1 /\
    mux_view s3 0 =
      Some (0, [Some (recording "a")] ++ [Some (recording "y")], "/api/") /\
    engines s3 !! 0 =
      Some (with_route
              (with_route (mkChi [] None None)
                 (mkRoute None ("/api/" +:+ "before")
                    (adaptor (recording "a" h))))
              (mkRoute None ("/api/" +:+ "after")
                 (adaptor (recording "a" (recording "y" h))))).
Proof.
  intros h y. split; [reflexivity|]. split; [reflexivity|].
  apply (Use_affects_only_later_routes spare_store 0 0
           [Some (recording "a")] [Some (recording "y")] "/api/"
           "before" "after" (mkChi [] None None) y h h);
    reflexivity.
Defined.

Lemma With_With_accumulates_witness :
  mux_view spare_store 0 = Some (0, [Some (recording "a")], "/api/") /\
  exists s1 s2,
    With 0 (Slice (Some 1) 1 1) spare_store = Ok 1 s1 /\
    With 1 (Slice (Some 2) 1 1) s1 = Ok 2 s2 /\
    mux_view s2 2 =
      Some (0, ([Some (recording "a")] ++ [Some (recording "x")]) ++
               [Some (recording "y")], "/api/") /\
    mux_view s2 1 =
      Some (0, [Some (recording "a")] ++ [Some (recording "x")], "/api/") /\
    mux_view s2 0 = Some (0, [Some (recording "a")], "/api/") /\
    engines s2 = engines spare_store.
Proof.
  split; [reflexivity|].
  apply (With_With_accumulates spare_store 0 0 [Some (recording "a")]
           [Some (recording "x")] [Some (recording "y")] "/api/"
           (Slice (Some 1) 1 1) (Slice (Some 2) 1 1)); reflexivity.
Defined.

Lemma Group_scopes_Use_witness :
  let y := Slice (Some 2) 1 1 in
  mux_view spare_store 0 = Some (0, [Some (recording "a")], "/api/") /\
  exists s',
    Group 0 (Some (fun g => Use g y)) spare_store = Ok 1 s' /\
    mux_view s' 1 =
      Some (0, [Some (recording "a")] ++ [Some (recording "y")], "/api/") /\
    mux_view s' 0 = Some (0, [Some (recording "a")], "/api/") /\
    engines s' = engines spare_store.
Proof.
  intros y. split; [reflexivity|].
  apply (Group_scopes_Use spare_store 0 0 [Some (recording "a")]
           [Some (recording "y")] "/api/" y); reflexivity.
Defined.


Lemma ends_with_slash_snoc (p : string) : ends_with_slash (p +:+ "/") = true.
Proof.
  induction p as [|a p IH]; [done|].
  destruct p as [|b p]; [done|]. exact IH.
Qed.

Section MoreRouteTheorems.
Context `{Environment}.

(** X14.  A trailing separator on the pattern makes no difference to
    [Route]: for a non-empty pattern that does not end with one,
    [Route(p + "/", fn)] does exactly what [Route(p, fn)] does. *)
Theorem Route_trailing_slash_irrelevant
    (m : loc) (p : string) (fn : MuxFunc) (s : Store) :
  p <> "" ->
  ends_with_slash p = false ->
  Route m (p +:+ "/") fn s = Route m p fn s.
Proof.
  intros Hp Hno.
  assert (Hp' : p +:+ "/" <> "") by by destruct p.
  destruct (string_index_last s p Hp) as (c & Hc & Hs).
  destruct (string_index_last s (p +:+ "/") Hp') as (c' & Hc' & Hs').
  unfold Route.
  rewrite (bind_Ok _ _ _ _ _ Hc), (bind_Ok _ _ _ _ _ Hc').
  by rewrite Hs, Hs', Hno, ends_with_slash_snoc.
Qed.


End MoreRouteTheorems.

Lemma Route_trailing_slash_irrelevant_witness :
  "/v1" <> "" /\ ends_with_slash "/v1" = false /\
  Route 0 ("/v1" +:+ "/") None root_store = Route 0 "/v1" None root_store.
Proof.
  split; [discriminate|]. split; [reflexivity|].
  apply (Route_trailing_slash_irrelevant 0 "/v1" None root_store);
    [discriminate|reflexivity].
Defined.


Lemma adaptor_appends_only_witness :
  let h : Handler :=
    fun w _ => (w ++ [Write "partial"], Some (Error 404 "not found")) in
  let r := {| r_Method := "GET"; r_Path := "/" |} in
  exists tail,
    adaptor h [] r = [Write "partial"] ++ tail /\
    length tail <= 2 /\
    Forall (fun c => exists err code,
              snd (h [] r) = Some err /\ c = HttpError (error_Error err) code)
      tail.
Proof.
  intros h r.
  destruct (adaptor_appends_only h [] r) as (tail & Heq & Hlen & _ & Hall).
  by exists tail.
Defined.
